(** * A select()-based TCP echo server (src/main.cpp)

    The program is a single C++ file: a [ServerSocket] that owns the
    listening descriptor, a [Server] whose [start] method runs the
    select/recv/send/accept loop, and [main].

    The code is embedded as functions in a state-and-exception monad over
    an explicit model of the operating system ([World]): every system call
    the source makes is a monadic operation that appends itself to a call
    trace, so orderings ("closed before the error propagates", "clients
    before the listener") are statements about that trace. *)

From stdpp Require Import gmap strings list sorting.
From Stdlib Require Import ZArith Strings.Byte Strings.Ascii.

#[local] Set Warnings "-clear-no-such-hyp".

Local Open Scope Z_scope.

(** ** Constants of the source and of the system headers *)

(** [#define BUFFER_SIZE 1024] *)
Definition BUFFER_SIZE : Z := 1024.

(** Values of <errno.h>, <fcntl.h> and <stdlib.h> on Linux. *)
Definition EBADF : Z := 9.
Definition EAGAIN : Z := 11.
Definition EINVAL : Z := 22.
Definition O_NONBLOCK : Z := 2048.
Definition EXIT_SUCCESS : Z := 0.
Definition EXIT_FAILURE : Z := 1.

(** ** The operating system *)

(** The system calls of the program, with the arguments that vary. *)
Inductive Call : Type :=
  | CSocket
  | CSetsockopt (fd : Z)
  | CFcntlGetfl (fd : Z)
  | CFcntlSetfl (fd : Z) (flags : Z)
  | CBind (fd : Z) (port : Z)
  | CListen (fd : Z)
  | CSelect (nfds : Z) (readfds : gset Z)
  | CRecv (fd : Z) (len : Z)
  | CSend (fd : Z) (data : list byte)
  | CShutdown (fd : Z)
  | CClose (fd : Z)
  | CAccept (fd : Z).

(** A connection request waiting in the listen queue: what the peer has
    already sent, whether it has already closed its sending side, and how
    many bytes its receive window can take. *)
Record Conn : Type := mkConn {
  c_data : list byte;
  c_fin : bool;
  c_window : nat
}.

Record World : Type := mkWorld {
  w_open : gset Z;               (* descriptors open in the process *)
  w_flags : gmap Z Z;            (* file status flags, per descriptor *)
  w_listening : gset Z;          (* descriptors on which listen() succeeded *)
  w_net : list Conn;             (* connection requests not yet accepted *)
  w_rx : gmap Z (list byte);     (* bytes received from the peer, not yet read *)
  w_fin : gset Z;                (* connections whose peer closed its sending side *)
  w_tx : gmap Z (list byte);     (* bytes taken from the server by send(), in order *)
  w_room : gmap Z nat;           (* free space of the socket send buffer *)
  w_errno : Z;                   (* the global errno *)
  w_stderr : list string;        (* lines written to standard error *)
  w_trace : list Call;           (* system calls made so far, oldest first *)
  w_fault : Call → option Z      (* calls that the system fails, with their errno *)
}.

Definition set_open (f : gset Z → gset Z) (w : World) : World :=
  mkWorld (f (w_open w)) (w_flags w) (w_listening w) (w_net w) (w_rx w) (w_fin w)
          (w_tx w) (w_room w) (w_errno w) (w_stderr w) (w_trace w) (w_fault w).
Definition set_flags (f : gmap Z Z → gmap Z Z) (w : World) : World :=
  mkWorld (w_open w) (f (w_flags w)) (w_listening w) (w_net w) (w_rx w) (w_fin w)
          (w_tx w) (w_room w) (w_errno w) (w_stderr w) (w_trace w) (w_fault w).
Definition set_listening (f : gset Z → gset Z) (w : World) : World :=
  mkWorld (w_open w) (w_flags w) (f (w_listening w)) (w_net w) (w_rx w) (w_fin w)
          (w_tx w) (w_room w) (w_errno w) (w_stderr w) (w_trace w) (w_fault w).
Definition set_net (f : list Conn → list Conn) (w : World) : World :=
  mkWorld (w_open w) (w_flags w) (w_listening w) (f (w_net w)) (w_rx w) (w_fin w)
          (w_tx w) (w_room w) (w_errno w) (w_stderr w) (w_trace w) (w_fault w).
Definition set_rx (f : gmap Z (list byte) → gmap Z (list byte)) (w : World) : World :=
  mkWorld (w_open w) (w_flags w) (w_listening w) (w_net w) (f (w_rx w)) (w_fin w)
          (w_tx w) (w_room w) (w_errno w) (w_stderr w) (w_trace w) (w_fault w).
Definition set_fin (f : gset Z → gset Z) (w : World) : World :=
  mkWorld (w_open w) (w_flags w) (w_listening w) (w_net w) (w_rx w) (f (w_fin w))
          (w_tx w) (w_room w) (w_errno w) (w_stderr w) (w_trace w) (w_fault w).
Definition set_tx (f : gmap Z (list byte) → gmap Z (list byte)) (w : World) : World :=
  mkWorld (w_open w) (w_flags w) (w_listening w) (w_net w) (w_rx w) (w_fin w)
          (f (w_tx w)) (w_room w) (w_errno w) (w_stderr w) (w_trace w) (w_fault w).
Definition set_room (f : gmap Z nat → gmap Z nat) (w : World) : World :=
  mkWorld (w_open w) (w_flags w) (w_listening w) (w_net w) (w_rx w) (w_fin w)
          (w_tx w) (f (w_room w)) (w_errno w) (w_stderr w) (w_trace w) (w_fault w).
Definition set_errno (e : Z) (w : World) : World :=
  mkWorld (w_open w) (w_flags w) (w_listening w) (w_net w) (w_rx w) (w_fin w)
          (w_tx w) (w_room w) e (w_stderr w) (w_trace w) (w_fault w).
Definition set_stderr (f : list string → list string) (w : World) : World :=
  mkWorld (w_open w) (w_flags w) (w_listening w) (w_net w) (w_rx w) (w_fin w)
          (w_tx w) (w_room w) (w_errno w) (f (w_stderr w)) (w_trace w) (w_fault w).
Definition log (c : Call) (w : World) : World :=
  mkWorld (w_open w) (w_flags w) (w_listening w) (w_net w) (w_rx w) (w_fin w)
          (w_tx w) (w_room w) (w_errno w) (w_stderr w) (w_trace w ++ [c]) (w_fault w).

(** ** Exceptions and the monad of the program *)

(** The dynamic type of a thrown object. Every [throw] of the source
    constructs an [ft::exception]; a [std::exception] object arises only
    as the copy made by [throw e] in the constructor of [ServerSocket],
    where [e] has the static type [const std::exception &]. *)
Inductive exn : Type :=
  | ft_exception (message : string)
  | std_exception.

(** [what()] *)
Definition what (e : exn) : string :=
  match e with
  | ft_exception message => message
  | std_exception => "std::exception"
  end.

(** [throw e;] with [e : const std::exception &]: the exception object is
    copy-initialised from the static type of the operand. *)
Definition copy_as_std_exception (e : exn) : exn := std_exception.

(** A computation returns, throws, or is suspended in select() for ever
    (nothing in the world is, or will become, readable). *)
Inductive Res (A : Type) : Type :=
  | Ok (a : A)
  | Throw (e : exn)
  | Block.
Arguments Ok {A} a.
Arguments Throw {A} e.
Arguments Block {A}.

Definition M (A : Type) : Type := World → Res A * World.

Definition ret {A} (a : A) : M A := λ w, (Ok a, w).

Definition bind {A B} (m : M A) (k : A → M B) : M B := λ w,
  match m w with
  | (Ok a, w') => k a w'
  | (Throw e, w') => (Throw e, w')
  | (Block, w') => (Block, w')
  end.

Definition throw {A} (e : exn) : M A := λ w, (Throw e, w).

(** [try { m } catch (const std::exception &e) { h e }]: both classes of
    [exn] derive from [std::exception]. *)
Definition try_catch {A} (m : M A) (h : exn → M A) : M A := λ w,
  match m w with
  | (Throw e, w') => h e w'
  | r => r
  end.

Declare Scope prog_scope.
Delimit Scope prog_scope with prog.
Notation "'let*' x := m 'in' k" := (bind m (λ x, k))
  (at level 10, x pattern, m at level 100, k at level 200) : prog_scope.
Notation "m ;;; k" := (bind m (λ _, k))
  (at level 100, k at level 200, right associativity) : prog_scope.
Local Open Scope prog_scope.

(** [if (b) throw ft::exception(message);] *)
Definition throw_if (b : bool) (message : string) : M unit :=
  if b then throw (ft_exception message) else ret tt.

(** ** System calls *)

(** Every call is logged; a call listed in [w_fault] fails with the
    errno given there and the value [err], and changes nothing else. *)
Definition syscall {A} (c : Call) (err : A) (body : M A) : M A := λ w,
  let w := log c w in
  match w_fault w c with
  | Some e => (Ok err, set_errno e w)
  | None => body w
  end.

(** A call on a descriptor that is not open fails with EBADF. *)
Definition on_fd {A} (fd : Z) (err : A) (body : M A) : M A := λ w,
  if decide (fd ∈ w_open w) then body w else (Ok err, set_errno EBADF w).

(** The lowest descriptor not in use, as POSIX allocates them. *)
Fixpoint lowest_free (s : gset Z) (n : nat) (fd : Z) : Z :=
  match n with
  | O => fd
  | S n => if decide (fd ∈ s) then lowest_free s n (fd + 1) else fd
  end.
Definition fresh_fd (s : gset Z) : Z := lowest_free s (size s) 0.

Definition sys_socket : M Z :=
  syscall CSocket (-1) (λ w,
    let fd := fresh_fd (w_open w) in
    (Ok fd, set_flags (insert fd 0) (set_open (union {[fd]}) w))).

Definition sys_setsockopt (fd : Z) : M Z :=
  syscall (CSetsockopt fd) (-1) (on_fd fd (-1) (ret 0)).

Definition sys_fcntl_getfl (fd : Z) : M Z :=
  syscall (CFcntlGetfl fd) (-1) (on_fd fd (-1) (λ w, (Ok (w_flags w !!! fd), w))).

Definition sys_fcntl_setfl (fd : Z) (flags : Z) : M Z :=
  syscall (CFcntlSetfl fd flags) (-1)
    (on_fd fd (-1) (λ w, (Ok 0, set_flags (insert fd flags) w))).

Definition sys_bind (fd : Z) (port : Z) : M Z :=
  syscall (CBind fd port) (-1) (on_fd fd (-1) (ret 0)).

Definition sys_listen (fd : Z) : M Z :=
  syscall (CListen fd) (-1)
    (on_fd fd (-1) (λ w, (Ok 0, set_listening (union {[fd]}) w))).

(** A socket is readable when a recv() or accept() on it would not have
    to wait: data, end of stream or an error for a connection, a pending
    request for a listening socket. *)
Definition readable (w : World) (fd : Z) : bool :=
  if decide (fd ∈ w_listening w) then
    match w_net w with [] => false | _ => true end
  else
    match w_rx w !!! fd with
    | [] => bool_decide (fd ∈ w_fin w)
            || bool_decide (is_Some (w_fault w (CRecv fd BUFFER_SIZE)))
    | _ => true
    end.

(** select(nfds, readfds, NULL, NULL, NULL): [readfds] is an in-out
    parameter, the result is its value after the call. On failure the
    set is left as it was. *)
Definition sys_select (nfds : Z) (readfds : gset Z) : M (gset Z) :=
  syscall (CSelect nfds readfds) readfds (λ w,
    let ready := filter (λ fd, fd < nfds ∧ readable w fd = true) readfds in
    if decide (ready = ∅) then (Block, w) else (Ok ready, w)).

(** recv(fd, buf, len, 0) on a non-blocking socket: the number of bytes
    read (or 0 at end of stream, or -1) and the bytes stored at the start
    of [buf]. errno is written only when the call fails. *)
Definition sys_recv (fd : Z) (len : Z) : M (Z * list byte) :=
  syscall (CRecv fd len) (-1, [])
    (on_fd fd (-1, []) (λ w,
       match w_rx w !!! fd with
       | [] => if decide (fd ∈ w_fin w) then (Ok (0, []), w)
               else (Ok (-1, []), set_errno EAGAIN w)
       | q => let d := take (Z.to_nat len) q in
              (Ok (Z.of_nat (length d), d),
               set_rx (insert fd (drop (Z.to_nat len) q)) w)
       end)).

(** send(fd, data, n, 0) on a non-blocking socket: takes as many bytes as
    the send buffer has room for, and fails with EAGAIN when it has none. *)
Definition sys_send (fd : Z) (data : list byte) : M Z :=
  syscall (CSend fd data) (-1)
    (on_fd fd (-1) (λ w,
       let room := w_room w !!! fd in
       match room, data with
       | O, _ :: _ => (Ok (-1), set_errno EAGAIN w)
       | _, _ => let d := take room data in
                 (Ok (Z.of_nat (length d)),
                  set_room (insert fd (room - length d)%nat)
                    (set_tx (insert fd (w_tx w !!! fd ++ d)) w))
       end)).

Definition sys_shutdown (fd : Z) : M Z :=
  syscall (CShutdown fd) (-1) (on_fd fd (-1) (ret 0)).

(** close(fd): the descriptor is released even when the call reports an
    error (as on Linux). *)
Definition sys_close (fd : Z) : M Z := λ w,
  let w := log (CClose fd) w in
  let w' := set_listening (λ s, s ∖ {[fd]}) (set_open (λ s, s ∖ {[fd]}) w) in
  match w_fault w (CClose fd) with
  | Some e => (Ok (-1), set_errno e w')
  | None => if decide (fd ∈ w_open w) then (Ok 0, w') else (Ok (-1), set_errno EBADF w')
  end.

(** accept(fd, 0, 0) on a non-blocking listening socket. *)
Definition sys_accept (fd : Z) : M Z :=
  syscall (CAccept fd) (-1)
    (on_fd fd (-1) (λ w,
       if decide (fd ∈ w_listening w) then
         match w_net w with
         | [] => (Ok (-1), set_errno EAGAIN w)
         | c :: rest =>
             let s := fresh_fd (w_open w) in
             (Ok s,
              set_net (λ _, rest)
                (set_room (insert s (c_window c))
                   (set_tx (insert s [])
                      (set_fin (λ f, if c_fin c then {[s]} ∪ f else f ∖ {[s]})
                         (set_rx (insert s (c_data c))
                            (set_flags (insert s 0)
                               (set_open (union {[s]}) w)))))))
         end
       else (Ok (-1), set_errno EINVAL w))).

(** [std::cerr << line << std::endl] *)
Definition write_stderr (line : string) : M unit := λ w,
  (Ok tt, set_stderr (λ l, l ++ [line]) w).

Definition get_errno : M Z := λ w, (Ok (w_errno w), w).

(** ** The program *)

(** [void setFdNonblock(int fd)] *)
Definition setFdNonblock (fd : Z) : M unit :=
  let* flags := sys_fcntl_getfl fd in
  let* r := sys_fcntl_setfl fd (Z.lor flags O_NONBLOCK) in
  throw_if (r =? -1) "fcntl(F_SETFL)".

(** *** [class ServerSocket]

    The move constructor and the move assignment are not used by the
    program and are left out. *)

Record ServerSocket : Type := mkServerSocket {
  fd : Z;
  listening : bool
}.

(** The three steps inside the [try] block of the constructor. *)
Definition ServerSocket_configure (fd : Z) (port : Z) : M unit :=
  let* r := sys_setsockopt fd in
  throw_if (r <? 0) "setsockopt()";;;
  setFdNonblock fd;;;
  let* r := sys_bind fd port in
  throw_if (r <? 0) "bind()".

(** [ServerSocket(int port)] *)
Definition ServerSocket_new (port : Z) : M ServerSocket :=
  if (port <=? 0) || (65535 <? port) then throw (ft_exception "Invalid port")
  else
    let* fd := sys_socket in
    if fd <? 0 then throw (ft_exception "socket()")
    else
      try_catch (ServerSocket_configure fd port)
        (λ e, sys_close fd;;; throw (copy_as_std_exception e));;;
      ret (mkServerSocket fd false).

(** [~ServerSocket()] *)
Definition ServerSocket_delete (s : ServerSocket) : M unit :=
  if 0 <=? fd s then sys_close (fd s);;; ret tt else ret tt.

(** [void listen()] *)
Definition ServerSocket_listen (s : ServerSocket) : M ServerSocket :=
  if listening s then throw (ft_exception "Already listening")
  else
    let* r := sys_listen (fd s) in
    throw_if (r <? 0) "listen()";;;
    ret (mkServerSocket (fd s) true).

(** [int getFd() const] *)
Definition getFd (s : ServerSocket) : Z := fd s.

(** *** [std::set<int>]

    An ordered set of integers is a strictly increasing list: iteration
    is in list order, [rbegin] is the last element, [insert] keeps the
    order and ignores an element already present. *)
Module IntSet.

Abbreviation t := (list Z).

Definition wf (s : t) : Prop := StronglySorted Z.lt s.

Definition empty (s : t) : bool :=
  match s with [] => true | _ => false end.

(** [*s.rbegin()], for a set that is not empty. *)
Definition rbegin (s : t) : Z := List.last s 0.

Fixpoint insert (x : Z) (s : t) : t :=
  match s with
  | [] => [x]
  | y :: s' =>
      if x <? y then x :: y :: s'
      else if x =? y then y :: s'
      else y :: insert x s'
  end.

End IntSet.

(** *** [fd_set]

    A set of descriptors. The macros of <sys/select.h> are defined for
    descriptors below FD_SETSIZE only, which the source does not check;
    [int] values are integers of [Z], descriptors being far from the
    bounds of [int]. *)

Definition FD_ZERO : gset Z := ∅.
Definition FD_SET (fd : Z) (fds : gset Z) : gset Z := {[fd]} ∪ fds.
Definition FD_ISSET (fd : Z) (fds : gset Z) : bool := bool_decide (fd ∈ fds).

(** *** [class Server] *)

Record Server : Type := mkServer {
  socket : ServerSocket;
  started : bool
}.

(** [Server(int port)] *)
Definition Server_new (port : Z) : M Server :=
  let* s := ServerSocket_new port in
  ret (mkServer s false).

(** [~Server()], which destroys the member [socket]. *)
Definition Server_delete (srv : Server) : M unit :=
  ServerSocket_delete (socket srv).

(** [static int maxSocketId(int serverSocket, const std::set<int> &clientSockets)] *)
Definition maxSocketId (serverSocket : Z) (clientSockets : IntSet.t) : Z :=
  if IntSet.empty clientSockets then serverSocket
  else Z.max serverSocket (IntSet.rbegin clientSockets).

(** Lines 127 to 132: FD_ZERO, FD_SET of the listener, FD_SET of every
    client. *)
Definition interest (serverSocket : Z) (clientSockets : IntSet.t) : gset Z :=
  foldl (λ fds sock, FD_SET sock fds) (FD_SET serverSocket FD_ZERO) clientSockets.

(** Lines 139 to 155, the body of the inner loop for the element [sock]
    under the iterator. The result tells what becomes of the iterator:
    [true] for [++it] (the element stays), [false] for
    [it = clientSockets.erase(it)]. Only the first [nRead] bytes of [buf]
    are ever used, so [buf] stands for that prefix. *)
Definition service_client (fds : gset Z) (sock : Z) : M bool :=
  if FD_ISSET sock fds then
    let* (nRead, buf) := sys_recv sock BUFFER_SIZE in
    let* errno := get_errno in
    if (nRead <=? 0) && negb (errno =? EAGAIN) then
      sys_shutdown sock;;;
      sys_close sock;;;
      ret false
    else if 0 <? nRead then
      sys_send sock (take (Z.to_nat nRead) buf);;;
      ret true
    else ret true
  else ret true.

(** Lines 137 to 156: the iterator [it] is the part of the set not yet
    visited; the result is the set after the loop. *)
Fixpoint service_clients (fds : gset Z) (it : IntSet.t) : M IntSet.t :=
  match it with
  | [] => ret []
  | sock :: it' =>
      let* keep := service_client fds sock in
      let* rest := service_clients fds it' in
      ret (if keep then sock :: rest else rest)
  end.

(** Lines 157 to 164. *)
Definition service_listener (serverSocket : Z) (fds : gset Z)
    (clientSockets : IntSet.t) : M IntSet.t :=
  if FD_ISSET serverSocket fds then
    let* sock := sys_accept serverSocket in
    throw_if (sock =? -1) "accept()";;;
    setFdNonblock sock;;;
    ret (IntSet.insert sock clientSockets)
  else ret clientSockets.

(** Lines 127 to 164: one turn of [while (true)]. *)
Definition iteration (serverSocket : Z) (clientSockets : IntSet.t) : M IntSet.t :=
  let fds := interest serverSocket clientSockets in
  let max := maxSocketId serverSocket clientSockets in
  let* fds := sys_select (max + 1) fds in
  let* clientSockets := service_clients fds clientSockets in
  service_listener serverSocket fds clientSockets.

(** [fuel] turns of the loop; the source's loop has no exit, so a result
    [Ok] means that the loop is still running. *)
Fixpoint event_loop (fuel : nat) (serverSocket : Z) (clientSockets : IntSet.t)
    : M IntSet.t :=
  match fuel with
  | O => ret clientSockets
  | S fuel =>
      let* clientSockets := iteration serverSocket clientSockets in
      event_loop fuel serverSocket clientSockets
  end.

(** [void start()], lines 117 to 122 and then the loop. *)
Definition Server_start (fuel : nat) (srv : Server) : M (Server * IntSet.t) :=
  if started srv then throw (ft_exception "Already started")
  else
    let* s := ServerSocket_listen (socket srv) in
    let srv := mkServer s true in
    let* clientSockets := event_loop fuel (getFd (socket srv)) [] in
    ret (srv, clientSockets).

(** *** [main] *)

Definition is_space (c : ascii) : bool :=
  let n := nat_of_ascii c in ((9 <=? n) && (n <=? 13))%nat || (n =? 32)%nat.

Fixpoint skip_spaces (s : string) : string :=
  match s with
  | String c s' => if is_space c then skip_spaces s' else s
  | EmptyString => s
  end.

Fixpoint digits_value (acc : Z) (s : string) : Z :=
  match s with
  | String c s' =>
      let n := nat_of_ascii c in
      if ((48 <=? n) && (n <=? 57))%nat
      then digits_value (10 * acc + Z.of_nat (n - 48)) s'
      else acc
  | EmptyString => acc
  end.

(** The number that a text starts with: leading white space, an optional
    sign, decimal digits; 0 when there is none. *)
Definition decimal_value (s : string) : Z :=
  match skip_spaces s with
  | String "-"%char s' => - digits_value 0 s'
  | String "+"%char s' => digits_value 0 s'
  | s' => digits_value 0 s'
  end.

(** The bounds of [long] and of [int] (LP64). *)
Definition LONG_MIN : Z := - 2 ^ 63.
Definition LONG_MAX : Z := 2 ^ 63 - 1.
Definition INT_MIN : Z := - 2 ^ 31.
Definition INT_MAX : Z := 2 ^ 31 - 1.

(** [strtol(s, NULL, 10)]: the number, held at the bounds of [long] when
    it is beyond them. *)
Definition strtol (s : string) : Z :=
  Z.max LONG_MIN (Z.min LONG_MAX (decimal_value s)).

(** The conversion from [long] to [int]: the low 32 bits, as a signed
    number. *)
Definition int_of_long (n : Z) : Z := (n + 2 ^ 31) mod 2 ^ 32 - 2 ^ 31.

(** [atoi] of <stdlib.h>, as in glibc: [(int) strtol(s, NULL, 10)]. A
    number within the range of [int] is returned as it is; C leaves the
    result undefined for any other. *)
Definition atoi (s : string) : Z := int_of_long (strtol s).

(** How the process ends: [return] from [main], [std::terminate] for an
    exception with no handler (the process is aborted; what the C++
    runtime may print then is not the program's and is not modelled),
    blocked for ever in select(), or still in the loop when the fuel ran
    out. *)
Inductive Outcome : Type :=
  | Exit (status : Z)
  | Terminate
  | Suspended
  | Running.

(** [catch (const ft::exception &e)] of [main]; an object of dynamic type
    [std::exception] does not match and reaches [std::terminate]. *)
Definition main_handler (e : exn) (w : World) : Outcome * World :=
  match e with
  | ft_exception _ =>
      let '(_, w) := write_stderr (what e) w in (Exit EXIT_FAILURE, w)
  | std_exception => (Terminate, w)
  end.

(** [int main(int argc, char **argv)], with [argc = length argv]. *)
Definition main (fuel : nat) (argv : list string) (w : World) : Outcome * World :=
  if negb (length argv =? 2)%nat then
    let '(_, w) := write_stderr "Usage: port" w in (Exit EXIT_SUCCESS, w)
  else
    match Server_new (atoi (argv !!! 1%nat)) w with
    | (Ok server, w) =>
        match Server_start fuel server w with
        | (Ok _, w) => (Running, w)
        | (Throw (ft_exception message), w) =>
            (* the handler is found, [server] is destroyed while unwinding *)
            let '(_, w) := Server_delete server w in
            main_handler (ft_exception message) w
        | (Throw std_exception, w) => main_handler std_exception w
        | (Block, w) => (Suspended, w)
        end
    | (Throw e, w) => main_handler e w
    | (Block, w) => (Suspended, w)
    end.

(** ** Vocabulary of the properties *)

(** Every run of the computation [m] takes a world to one related to it
    by [R]. *)
Definition preserves (R : World → World → Prop) {A} (m : M A) : Prop :=
  ∀ w r w', m w = (r, w') → R w w'.

(** Nothing was written to standard error between [w] and [w']. *)
Definition same_stderr (w w' : World) : Prop := w_stderr w' = w_stderr w.

(** The computation makes exactly the call [c]. *)
Definition makes {A} (c : Call) (m : M A) : Prop :=
  ∀ w r w', m w = (r, w') →
    w_trace w' = w_trace w ++ [c] ∧ w_fault w' = w_fault w.

(** System calls return; they neither throw nor suspend (select apart). *)
Definition returns {A} (m : M A) : Prop :=
  ∀ w, ∃ a w', m w = (Ok a, w').

(** The four ways through the body of the inner loop. *)
Inductive serviced (fds : gset Z) (sock : Z) (w : World) : bool → World → Prop :=
  | serviced_not_ready :
      FD_ISSET sock fds = false →
      serviced fds sock w true w
  | serviced_closed nRead buf w1 r1 w2 r2 w3 :
      FD_ISSET sock fds = true →
      sys_recv sock BUFFER_SIZE w = (Ok (nRead, buf), w1) →
      nRead ≤ 0 → w_errno w1 ≠ EAGAIN →
      sys_shutdown sock w1 = (Ok r1, w2) →
      sys_close sock w2 = (Ok r2, w3) →
      serviced fds sock w false w3
  | serviced_echo nRead buf w1 r1 w2 :
      FD_ISSET sock fds = true →
      sys_recv sock BUFFER_SIZE w = (Ok (nRead, buf), w1) →
      0 < nRead →
      sys_send sock (take (Z.to_nat nRead) buf) w1 = (Ok r1, w2) →
      serviced fds sock w true w2
  | serviced_idle nRead buf w1 :
      FD_ISSET sock fds = true →
      sys_recv sock BUFFER_SIZE w = (Ok (nRead, buf), w1) →
      nRead ≤ 0 → w_errno w1 = EAGAIN →
      serviced fds sock w true w1.

(** The four ways through lines 157 to 164. *)
Inductive listened (lfd : Z) (fds : gset Z) (cs : list Z) (w : World)
    : Res (list Z) → World → Prop :=
  | listened_not_ready :
      FD_ISSET lfd fds = false →
      listened lfd fds cs w (Ok cs) w
  | listened_accept_failed w1 :
      FD_ISSET lfd fds = true →
      sys_accept lfd w = (Ok (-1), w1) →
      listened lfd fds cs w (Throw (ft_exception "accept()")) w1
  | listened_nonblock_failed sock w1 flags w2 w3 :
      FD_ISSET lfd fds = true →
      sys_accept lfd w = (Ok sock, w1) → sock ≠ -1 →
      sys_fcntl_getfl sock w1 = (Ok flags, w2) →
      sys_fcntl_setfl sock (Z.lor flags O_NONBLOCK) w2 = (Ok (-1), w3) →
      listened lfd fds cs w (Throw (ft_exception "fcntl(F_SETFL)")) w3
  | listened_accepted sock w1 flags w2 r w3 :
      FD_ISSET lfd fds = true →
      sys_accept lfd w = (Ok sock, w1) → sock ≠ -1 →
      sys_fcntl_getfl sock w1 = (Ok flags, w2) →
      sys_fcntl_setfl sock (Z.lor flags O_NONBLOCK) w2 = (Ok r, w3) → r ≠ -1 →
      listened lfd fds cs w (Ok (IntSet.insert sock cs)) w3.

(** The descriptors read from, in the order of the calls. *)
Definition read_fd (c : Call) : option Z :=
  match c with CRecv fd _ => Some fd | _ => None end.

(** The descriptors closed, in the order of the calls. *)
Definition close_fd (c : Call) : option Z :=
  match c with CClose fd => Some fd | _ => None end.

(** recv() and send(), the calls that move data on a connection. *)
Definition is_io (c : Call) : bool :=
  match c with CRecv _ _ | CSend _ _ => true | _ => false end.

(** accept(), the call that creates a connection. *)
Definition is_accept (c : Call) : bool :=
  match c with CAccept _ => true | _ => false end.

(** What the system holds for the connection [fd] is the same in [w]
    and [w']. *)
Definition same_conn (fd : Z) (w w' : World) : Prop :=
  w_rx w' !!! fd = w_rx w !!! fd ∧
  w_tx w' !!! fd = w_tx w !!! fd ∧
  w_room w' !!! fd = w_room w !!! fd ∧
  (fd ∈ w_open w' ↔ fd ∈ w_open w) ∧
  (fd ∈ w_fin w' ↔ fd ∈ w_fin w) ∧
  w_fault w' = w_fault w.

(** ** Scenarios *)

(** The bytes of a string literal. *)
Definition bytes_of (s : string) : list byte := String.list_byte_of_string s.

(** A process just started: the three standard descriptors are open,
    nothing is connected, no call fails. *)
Definition boot : World :=
  mkWorld {[0; 1; 2]} ∅ ∅ [] ∅ ∅ ∅ ∅ 0 [] [] (λ _, None).

(** The world [w], except that the system fails the calls selected by [p]
    with errno [e]. *)
Definition failing (p : Call → bool) (e : Z) (w : World) : World :=
  mkWorld (w_open w) (w_flags w) (w_listening w) (w_net w) (w_rx w) (w_fin w)
          (w_tx w) (w_room w) (w_errno w) (w_stderr w) (w_trace w)
          (λ c, if p c then Some e else w_fault w c).

(** Classes of calls, to choose the ones that fail. *)
Definition is_socket (c : Call) : bool :=
  match c with CSocket => true | _ => false end.
Definition is_setsockopt (c : Call) : bool :=
  match c with CSetsockopt _ => true | _ => false end.
Definition is_setfl (c : Call) : bool :=
  match c with CFcntlSetfl _ _ => true | _ => false end.
Definition is_bind (c : Call) : bool :=
  match c with CBind _ _ => true | _ => false end.
Definition is_listen (c : Call) : bool :=
  match c with CListen _ => true | _ => false end.

(** A server listening on descriptor 3 with one connection request
    pending, whose peer has already sent "ping". *)
Definition one_pending : World :=
  mkWorld {[0; 1; 2; 3]} {[3 := O_NONBLOCK]} {[3]}
          [mkConn (bytes_of "ping") false 100]
          ∅ ∅ ∅ ∅ 0 [] [] (λ _, None).

(** A server listening on 3 with client 4, whose peer has sent "ping",
    and one connection request pending. *)
Definition one_talking_one_pending : World :=
  mkWorld {[0; 1; 2; 3; 4]} {[3 := O_NONBLOCK; 4 := O_NONBLOCK]} {[3]}
          [mkConn (bytes_of "hello") false 100]
          {[4 := bytes_of "ping"]} ∅ {[4 := []]} {[4 := 100%nat]}
          0 [] [] (λ _, None).

(** A server listening on 3 with two clients: the peer of 4 has sent
    "AAAA" and the peer of 5 has sent "ping"; both can take the echo. *)
Definition two_talking : World :=
  mkWorld {[0; 1; 2; 3; 4; 5]}
          {[3 := O_NONBLOCK; 4 := O_NONBLOCK; 5 := O_NONBLOCK]} {[3]} []
          {[4 := bytes_of "AAAA"; 5 := bytes_of "ping"]} ∅
          {[4 := []; 5 := []]} {[4 := 100%nat; 5 := 100%nat]}
          0 [] [] (λ _, None).

(** A server listening on 3 with two clients: the peer of 4 has sent "x"
    but does not read, so that the send buffer of 4 is full; the peer of
    5 has closed its connection without sending anything. errno is 0. *)
Definition one_stalled_one_closed : World :=
  mkWorld {[0; 1; 2; 3; 4; 5]}
          {[3 := O_NONBLOCK; 4 := O_NONBLOCK; 5 := O_NONBLOCK]} {[3]} []
          {[4 := bytes_of "x"]} {[5]}
          {[4 := []; 5 := []]} {[4 := 0%nat; 5 := 100%nat]}
          0 [] [] (λ _, None).

(** The world of [one_stalled_one_closed] once the "x" of client 4 has
    been read and its echo refused with EAGAIN, after the calls [t]. *)
Definition stalled_after (t : list Call) : World :=
  mkWorld {[0; 1; 2; 3; 4; 5]}
          {[3 := O_NONBLOCK; 4 := O_NONBLOCK; 5 := O_NONBLOCK]} {[3]} []
          {[4 := []]} {[5]}
          {[4 := []; 5 := []]} {[4 := 0%nat; 5 := 100%nat]}
          EAGAIN [] t (λ _, None).

(** A process just started, with two connection requests on their way:
    the first peer has sent "x" and takes nothing back (window 0), the
    second has connected and closed at once. *)
Definition two_arriving : World :=
  set_net (λ _, [mkConn (bytes_of "x") false 0; mkConn [] true 100]) boot.

(** ** The rest of [class ServerSocket]: objects that are moved

    The move operations take two objects, which may be one and the same
    ([a = std::move(a)]), so the objects live in a store, by address. *)

(** [ServerSocket(ServerSocket &&move) : fd(move.fd) { move.fd = -1; }],
    constructing the object at [this]. The member [listening] has no
    initialiser there: its value is indeterminate, here [garbage]. *)
Definition ServerSocket_move_new (this move : nat) (garbage : bool)
    (objs : gmap nat ServerSocket) : gmap nat ServerSocket :=
  match objs !! move with
  | Some m =>
      let objs := <[this := mkServerSocket (fd m) garbage]> objs in
      match objs !! move with
      | Some m => <[move := mkServerSocket (-1) (listening m)]> objs
      | None => objs
      end
  | None => objs
  end.

(** [ServerSocket &operator=(ServerSocket &&other)], lines 75 to 80: each
    statement reads the store as the one before left it. *)
Definition ServerSocket_move_assign (this other : nat)
    (objs : gmap nat ServerSocket) : M (gmap nat ServerSocket) :=
  match objs !! this with
  | Some t =>
      sys_close (fd t);;;
      match objs !! this, objs !! other with
      | Some t, Some o =>
          let objs := <[this := mkServerSocket (fd o) (listening t)]> objs in
          match objs !! other with
          | Some o => ret (<[other := mkServerSocket (-1) (listening o)]> objs)
          | None => ret objs
          end
      | _, _ => ret objs
      end
  | None => ret objs
  end.

(** The end of the lifetime of the object at [this]: its destructor
    runs and the object leaves the store. *)
Definition ServerSocket_destroy (this : nat)
    (objs : gmap nat ServerSocket) : M (gmap nat ServerSocket) :=
  match objs !! this with
  | Some s => ServerSocket_delete s;;; ret (delete this objs)
  | None => ret objs
  end.

(** ** More vocabulary *)

(** The descriptors of the live set are open, in ascending order without
    repetition, and the listening descriptor is open and not one of
    them. *)
Definition live_open (lfd : Z) (clients : list Z) (w : World) : Prop :=
  IntSet.wf clients ∧
  (∀ x, x ∈ clients → x ∈ w_open w) ∧
  lfd ∈ w_open w ∧
  lfd ∉ clients.

(** The lines that [main] can write before it returns EXIT_FAILURE. *)
Definition failure_messages : list string :=
  ["Invalid port"; "socket()"; "listen()"; "accept()"; "fcntl(F_SETFL)"].

(** Decimal digits. *)
Definition is_digit (c : ascii) : bool :=
  let n := nat_of_ascii c in ((48 <=? n) && (n <=? 57))%nat.

(** ** More scenarios *)

Definition is_getfl (c : Call) : bool :=
  match c with CFcntlGetfl _ => true | _ => false end.
Definition is_select (c : Call) : bool :=
  match c with CSelect _ _ => true | _ => false end.

(** As [two_talking], with room for two bytes only in the send buffer
    of client 5. *)
Definition two_talking_short : World := set_room (insert 5 2%nat) two_talking.

(** As [one_stalled_one_closed], with room in the send buffer of 4. *)
Definition one_talking_one_closed : World :=
  set_room (insert 4 100%nat) one_stalled_one_closed.


(** Two socket objects: at address 0 one that is not listening, on
    descriptor 4; at address 1 one that is listening, on descriptor 3. *)
Definition two_objects : gmap nat ServerSocket :=
  {[0%nat := mkServerSocket 4 false; 1%nat := mkServerSocket 3 true]}.

(** As [two_talking], with a connection reset by the peer of client 4:
    the read on 4 fails with errno 104. *)
Definition one_reset_one_talking : World :=
  failing (λ c, match c with CRecv 4 _ => true | _ => false end) 104 two_talking.

(** ** Vocabulary for the listener phase inside the loop *)

(** The turn of the loop that starts in the world [wpre] with the live
    set [clients] reaches its listener phase with the ready set [fds],
    the live set [cs] and the world [w]: select() returned [fds] and the
    client phase then returned [cs]. *)
Definition turn_of (lfd : Z) (clients : list Z) (wpre : World)
    (fds : gset Z) (cs : list Z) (w : World) : Prop :=
  ∃ w0,
    sys_select (maxSocketId lfd clients + 1) (interest lfd clients) wpre = (Ok fds, w0) ∧
    service_clients fds clients w0 = (Ok cs, w).

(** The interest sets passed to select(), in the order of the calls. *)
Definition select_set (c : Call) : option (gset Z) :=
  match c with CSelect _ readfds => Some readfds | _ => None end.

(** As [one_talking_one_pending], in a system that fails every
    fcntl(F_SETFL). *)
Definition one_pending_no_setfl : World :=
  failing is_setfl EINVAL one_talking_one_pending.

(** * Properties *)

(** ** Reasoning about computations *)

(** Unfold one layer of the monad and split on every test that the
    computation makes. *)
Ltac run_unfold :=
  unfold throw_if, try_catch, syscall, on_fd, get_errno, bind, ret, throw in *.

Ltac run_cases :=
  repeat (simplify_eq/=; try case_match); simplify_eq/=.

(** A preorder on worlds is kept by the constructs of the monad as soon
    as the system calls keep it. *)
Section Preserves.
Variable R : World → World → Prop.
Hypothesis R_refl : ∀ w, R w w.
Hypothesis R_trans : ∀ w1 w2 w3, R w1 w2 → R w2 w3 → R w1 w3.

Lemma preserves_ret {A} (a : A) : preserves R (ret a).
Proof. intros w r w' H. unfold ret in H. by simplify_eq. Qed.

Lemma preserves_throw {A} (e : exn) : preserves R (@throw A e).
Proof. intros w r w' H. unfold throw in H. by simplify_eq. Qed.

Lemma preserves_throw_if b message : preserves R (throw_if b message).
Proof. destruct b; [apply preserves_throw | apply preserves_ret]. Qed.

Lemma preserves_bind {A B} (m : M A) (k : A → M B) :
  preserves R m → (∀ a, preserves R (k a)) → preserves R (bind m k).
Proof.
  intros Hm Hk w r w' H. unfold bind in H.
  destruct (m w) as [[a|e|] w1] eqn:E; specialize (Hm _ _ _ E).
  - eapply R_trans; [exact Hm | by eapply Hk].
  - by simplify_eq.
  - by simplify_eq.
Qed.

Lemma preserves_try_catch {A} (m : M A) (h : exn → M A) :
  preserves R m → (∀ e, preserves R (h e)) → preserves R (try_catch m h).
Proof.
  intros Hm Hh w r w' H. unfold try_catch in H.
  destruct (m w) as [[a|e|] w1] eqn:E; specialize (Hm _ _ _ E).
  - by simplify_eq.
  - eapply R_trans; [exact Hm | by eapply Hh].
  - by simplify_eq.
Qed.

End Preserves.

(** Reduce a goal [preserves R m] to the system calls of [m]. *)
Ltac preserves_step R_refl R_trans :=
  lazymatch goal with
  | |- preserves _ (bind _ _) =>
      apply preserves_bind; [exact R_trans | | intros ?]
  | |- preserves _ (try_catch _ _) =>
      apply preserves_try_catch; [exact R_trans | | intros ?]
  | |- preserves _ (ret _) => apply preserves_ret; exact R_refl
  | |- preserves _ (throw _) => apply preserves_throw; exact R_refl
  | |- preserves _ (throw_if _ _) => apply preserves_throw_if; exact R_refl
  | |- preserves _ (if ?b then _ else _) => destruct b
  | |- preserves _ (match ?x with _ => _ end) => destruct x
  end.

(** ** [std::set<int>] as a sorted list *)

Lemma IntSet_rbegin_cons (x y : Z) (s : list Z) :
  IntSet.rbegin (x :: y :: s) = IntSet.rbegin (y :: s).
Proof. reflexivity. Qed.

Lemma IntSet_rbegin_elem (s : list Z) : s ≠ [] → IntSet.rbegin s ∈ s.
Proof.
  induction s as [|x [|y s] IH]; intros Hne; [done | |].
  - apply list_elem_of_here.
  - rewrite IntSet_rbegin_cons. apply list_elem_of_further, IH. done.
Qed.

Lemma IntSet_rbegin_largest (s : list Z) (x : Z) :
  IntSet.wf s → x ∈ s → x ≤ IntSet.rbegin s.
Proof.
  unfold IntSet.wf. induction s as [|y [|z s] IH]; intros Hwf Hx.
  - by apply elem_of_nil in Hx.
  - apply list_elem_of_singleton in Hx. subst. reflexivity.
  - rewrite IntSet_rbegin_cons.
    apply StronglySorted_inv in Hwf as [Hwf Hall].
    apply elem_of_cons in Hx as [->|Hx]; [|by apply IH].
    rewrite Forall_forall in Hall.
    assert (y < IntSet.rbegin (z :: s)).
    { apply Hall, IntSet_rbegin_elem. done. }
    lia.
Qed.

Lemma IntSet_elem_of_insert (x y : Z) (s : list Z) :
  y ∈ IntSet.insert x s ↔ y = x ∨ y ∈ s.
Proof.
  induction s as [|z s IH]; simpl.
  - rewrite list_elem_of_singleton, elem_of_nil. tauto.
  - destruct (Z.ltb_spec x z); [rewrite !elem_of_cons; tauto|].
    destruct (Z.eqb_spec x z); [subst; rewrite !elem_of_cons; tauto|].
    rewrite !elem_of_cons, IH. tauto.
Qed.

Lemma IntSet_insert_wf (x : Z) (s : list Z) :
  IntSet.wf s → IntSet.wf (IntSet.insert x s).
Proof.
  unfold IntSet.wf. induction s as [|z s IH]; intros Hwf; simpl.
  - repeat constructor.
  - destruct (Z.ltb_spec x z).
    + constructor; [done|].
      apply StronglySorted_inv in Hwf as [_ Hall].
      constructor; [done|]. eapply Forall_impl; [exact Hall|]. simpl. lia.
    + destruct (Z.eqb_spec x z); [done|].
      apply StronglySorted_inv in Hwf as [Hwf Hall].
      constructor; [by apply IH|].
      apply Forall_forall. intros y Hy.
      apply IntSet_elem_of_insert in Hy as [->|Hy]; [lia|].
      rewrite Forall_forall in Hall. by apply Hall.
Qed.

Lemma elem_of_interest (lfd : Z) (clients : list Z) (x : Z) :
  x ∈ interest lfd clients ↔ x = lfd ∨ x ∈ clients.
Proof.
  unfold interest.
  assert (∀ acc : gset Z,
    x ∈ foldl (λ fds sock, FD_SET sock fds) acc clients ↔ x ∈ acc ∨ x ∈ clients) as H.
  { induction clients as [|c cs IH]; intros acc; simpl.
    - rewrite elem_of_nil. tauto.
    - rewrite IH, elem_of_cons. unfold FD_SET. set_solver. }
  rewrite H. unfold FD_SET, FD_ZERO. set_solver.
Qed.

(** ** What a system call does to the trace *)

Ltac makes_tac :=
  intros w r w' H; run_unfold; run_cases; done.

Lemma sys_socket_makes : makes CSocket sys_socket.
Proof. unfold sys_socket. makes_tac. Qed.
Lemma sys_setsockopt_makes fd : makes (CSetsockopt fd) (sys_setsockopt fd).
Proof. unfold sys_setsockopt. makes_tac. Qed.
Lemma sys_fcntl_getfl_makes fd : makes (CFcntlGetfl fd) (sys_fcntl_getfl fd).
Proof. unfold sys_fcntl_getfl. makes_tac. Qed.
Lemma sys_fcntl_setfl_makes fd fl : makes (CFcntlSetfl fd fl) (sys_fcntl_setfl fd fl).
Proof. unfold sys_fcntl_setfl. makes_tac. Qed.
Lemma sys_bind_makes fd port : makes (CBind fd port) (sys_bind fd port).
Proof. unfold sys_bind. makes_tac. Qed.
Lemma sys_listen_makes fd : makes (CListen fd) (sys_listen fd).
Proof. unfold sys_listen. makes_tac. Qed.
Lemma sys_select_makes nfds fds : makes (CSelect nfds fds) (sys_select nfds fds).
Proof. unfold sys_select. makes_tac. Qed.
Lemma sys_recv_makes fd len : makes (CRecv fd len) (sys_recv fd len).
Proof. unfold sys_recv. makes_tac. Qed.
Lemma sys_send_makes fd data : makes (CSend fd data) (sys_send fd data).
Proof. unfold sys_send. makes_tac. Qed.
Lemma sys_shutdown_makes fd : makes (CShutdown fd) (sys_shutdown fd).
Proof. unfold sys_shutdown. makes_tac. Qed.
Lemma sys_close_makes fd : makes (CClose fd) (sys_close fd).
Proof. unfold sys_close. makes_tac. Qed.
Lemma sys_accept_makes fd : makes (CAccept fd) (sys_accept fd).
Proof. unfold sys_accept. makes_tac. Qed.

Ltac returns_tac :=
  intros w; run_unfold; simpl; repeat case_match; eauto.

Lemma sys_recv_returns fd len : returns (sys_recv fd len).
Proof. unfold sys_recv. returns_tac. Qed.
Lemma sys_send_returns fd data : returns (sys_send fd data).
Proof. unfold sys_send. returns_tac. Qed.
Lemma sys_shutdown_returns fd : returns (sys_shutdown fd).
Proof. unfold sys_shutdown. returns_tac. Qed.
Lemma sys_close_returns fd : returns (sys_close fd).
Proof. unfold sys_close. returns_tac. Qed.
Lemma sys_accept_returns fd : returns (sys_accept fd).
Proof. unfold sys_accept. returns_tac. Qed.
Lemma sys_fcntl_getfl_returns fd : returns (sys_fcntl_getfl fd).
Proof. unfold sys_fcntl_getfl. returns_tac. Qed.
Lemma sys_fcntl_setfl_returns fd fl : returns (sys_fcntl_setfl fd fl).
Proof. unfold sys_fcntl_setfl. returns_tac. Qed.

(** ** Servicing one client *)

Lemma bind_returns_inv {A B} (m : M A) (k : A → M B) w r w' :
  returns m → bind m k w = (r, w') →
  ∃ a w1, m w = (Ok a, w1) ∧ k a w1 = (r, w').
Proof.
  intros Hm H. unfold bind in H. destruct (Hm w) as (a & w1 & E).
  rewrite E in H. eauto.
Qed.

Lemma service_client_serviced fds sock w :
  ∃ keep w', service_client fds sock w = (Ok keep, w') ∧ serviced fds sock w keep w'.
Proof.
  unfold service_client. destruct (FD_ISSET sock fds) eqn:Hready.
  2:{ eexists _, _. split; [reflexivity|]. by constructor. }
  unfold bind at 1.
  destruct (sys_recv_returns sock BUFFER_SIZE w) as ([nRead buf] & w1 & Hrecv).
  rewrite Hrecv. unfold bind at 1, get_errno at 1.
  destruct (Z.leb_spec nRead 0) as [Hn|Hn]; simpl.
  - destruct (Z.eqb_spec (w_errno w1) EAGAIN) as [He|He]; simpl.
    + replace (0 <? nRead) with false by lia.
      eexists _, _. split; [reflexivity|]. by eapply serviced_idle.
    + unfold bind at 1.
      destruct (sys_shutdown_returns sock w1) as (r1 & w2 & Hsh). rewrite Hsh.
      unfold bind at 1.
      destruct (sys_close_returns sock w2) as (r2 & w3 & Hcl). rewrite Hcl.
      eexists _, _. split; [reflexivity|]. by eapply serviced_closed.
  - replace (0 <? nRead) with true by lia.
    unfold bind at 1.
    destruct (sys_send_returns sock (take (Z.to_nat nRead) buf) w1) as (r1 & w2 & Hs).
    rewrite Hs. eexists _, _. split; [reflexivity|]. by eapply serviced_echo.
Qed.

Lemma service_client_inv fds sock w r w' :
  service_client fds sock w = (r, w') →
  ∃ keep, r = Ok keep ∧ serviced fds sock w keep w'.
Proof.
  intros H. destruct (service_client_serviced fds sock w) as (keep & w2 & E & Hs).
  rewrite E in H. simplify_eq. eauto.
Qed.

Lemma service_clients_returns fds it : returns (service_clients fds it).
Proof.
  induction it as [|sock it IH]; intros w; simpl.
  - unfold ret. eauto.
  - destruct (service_client_serviced fds sock w) as (keep & w1 & E & _).
    unfold bind at 1. rewrite E.
    destruct (IH w1) as (rest & w2 & E2). unfold bind. rewrite E2.
    unfold ret. eauto.
Qed.

Lemma serviced_trace fds sock w keep w' :
  serviced fds sock w keep w' →
  ∃ t, w_trace w' = w_trace w ++ t ∧
       omap read_fd t = (if FD_ISSET sock fds then [sock] else []) ∧
       Forall (λ c, is_accept c = false) t ∧
       w_fault w' = w_fault w.
Proof.
  intros [Hr | n buf w1 r1 w2 r2 w3 Hr Hrecv _ _ Hsh Hcl
             | n buf w1 r1 w2 Hr Hrecv _ Hsend
             | n buf w1 Hr Hrecv _ _]; rewrite Hr.
  - exists []. by rewrite app_nil_r.
  - apply sys_recv_makes in Hrecv as [T1 F1].
    apply sys_shutdown_makes in Hsh as [T2 F2].
    apply sys_close_makes in Hcl as [T3 F3].
    exists [CRecv sock BUFFER_SIZE; CShutdown sock; CClose sock].
    rewrite T3, T2, T1, <-!app_assoc. split_and!; [done | done | | congruence].
    by repeat constructor.
  - apply sys_recv_makes in Hrecv as [T1 F1].
    apply sys_send_makes in Hsend as [T2 F2].
    eexists [CRecv sock BUFFER_SIZE; CSend sock _].
    rewrite T2, T1, <-!app_assoc. split_and!; [done | done | | congruence].
    by repeat constructor.
  - apply sys_recv_makes in Hrecv as [T1 F1].
    exists [CRecv sock BUFFER_SIZE]. split_and!; [done | done | | done].
    by repeat constructor.
Qed.

(** ** The loop over the clients *)

Lemma service_clients_cons fds sock it w r w' :
  service_clients fds (sock :: it) w = (r, w') →
  ∃ keep w1 rest,
    serviced fds sock w keep w1 ∧
    service_clients fds it w1 = (Ok rest, w') ∧
    r = Ok (if keep then sock :: rest else rest).
Proof.
  simpl. intros H.
  destruct (service_client_serviced fds sock w) as (keep & w1 & E & Hs).
  unfold bind at 1 in H. rewrite E in H.
  destruct (service_clients_returns fds it w1) as (rest & w2 & E2).
  unfold bind, ret in H. rewrite E2 in H. simplify_eq. eauto 10.
Qed.

Lemma service_clients_trace fds it w cs w' :
  service_clients fds it w = (Ok cs, w') →
  ∃ t, w_trace w' = w_trace w ++ t ∧
       omap read_fd t = filter (λ fd, fd ∈ fds) it ∧
       Forall (λ c, is_accept c = false) t ∧
       w_fault w' = w_fault w.
Proof.
  revert w cs w'. induction it as [|sock it IH]; intros w cs w' H.
  - simpl in H. unfold ret in H. simplify_eq. exists []. by rewrite app_nil_r.
  - apply service_clients_cons in H as (keep & w1 & rest & Hs & Hrest & _).
    apply serviced_trace in Hs as (t1 & T1 & R1 & A1 & F1).
    apply IH in Hrest as (t2 & T2 & R2 & A2 & F2).
    exists (t1 ++ t2). rewrite T2, T1, <-app_assoc, omap_app, R1, R2.
    split_and!; [done | | by apply Forall_app | congruence].
    unfold FD_ISSET. rewrite filter_cons. by case_bool_decide; case_decide.
Qed.

Lemma service_clients_sublist fds it w cs w' :
  service_clients fds it w = (Ok cs, w') → sublist cs it.
Proof.
  revert w cs w'. induction it as [|sock it IH]; intros w cs w' H.
  - simpl in H. unfold ret in H. by simplify_eq.
  - apply service_clients_cons in H as (keep & w1 & rest & _ & Hrest & E).
    apply IH in Hrest. simplify_eq.
    destruct keep; by constructor.
Qed.

Lemma IntSet_wf_sublist (s s' : list Z) :
  sublist s' s → IntSet.wf s → IntSet.wf s'.
Proof.
  unfold IntSet.wf. induction 1 as [|x l1 l2 Hsub IH|x l1 l2 Hsub IH];
    rewrite ?StronglySorted_cons; [done | |].
  - intros [Hall Hwf]. split; [|by apply IH].
    apply Forall_forall. intros y Hy. rewrite Forall_forall in Hall.
    apply Hall. by eapply sublist_subseteq.
  - intros [_ Hwf]. by apply IH.
Qed.

Lemma IntSet_wf_filter (fds : gset Z) (s : list Z) :
  IntSet.wf s → IntSet.wf (filter (λ fd, fd ∈ fds) s).
Proof. apply IntSet_wf_sublist, sublist_filter. Qed.

(** ** Connections do not interfere *)

Lemma same_conn_refl fd w : same_conn fd w w.
Proof. by repeat split. Qed.

Lemma same_conn_trans fd w1 w2 w3 :
  same_conn fd w1 w2 → same_conn fd w2 w3 → same_conn fd w1 w3.
Proof.
  intros (A1 & B1 & C1 & D1 & E1 & F1) (A2 & B2 & C2 & D2 & E2 & F2).
  split_and!; [congruence | congruence | congruence | tauto | tauto | congruence].
Qed.

Ltac same_conn_tac :=
  intros w r w' H; run_unfold; run_cases;
  (split_and!; simpl; rewrite ?lookup_total_insert_ne by done; try done; set_solver).

Lemma sys_recv_other fd sock len :
  sock ≠ fd → preserves (same_conn fd) (sys_recv sock len).
Proof. intros Hne. unfold sys_recv. same_conn_tac. Qed.

Lemma sys_send_other fd sock data :
  sock ≠ fd → preserves (same_conn fd) (sys_send sock data).
Proof. intros Hne. unfold sys_send. same_conn_tac. Qed.

Lemma sys_shutdown_other fd sock :
  preserves (same_conn fd) (sys_shutdown sock).
Proof. unfold sys_shutdown. same_conn_tac. Qed.

Lemma sys_close_other fd sock :
  sock ≠ fd → preserves (same_conn fd) (sys_close sock).
Proof. intros Hne. unfold sys_close. same_conn_tac. Qed.

Lemma serviced_other fds fd sock w keep w' :
  sock ≠ fd → serviced fds sock w keep w' → same_conn fd w w'.
Proof.
  intros Hne [Hr | n buf w1 r1 w2 r2 w3 Hr Hrecv _ _ Hsh Hcl
                 | n buf w1 r1 w2 Hr Hrecv _ Hsend
                 | n buf w1 Hr Hrecv _ _].
  - apply same_conn_refl.
  - eapply same_conn_trans; [by eapply sys_recv_other|].
    eapply same_conn_trans; [by eapply sys_shutdown_other|].
    by eapply sys_close_other.
  - eapply same_conn_trans; [by eapply sys_recv_other|].
    by eapply sys_send_other.
  - by eapply sys_recv_other.
Qed.

Lemma service_clients_other fds fd it w cs w' :
  fd ∉ it → service_clients fds it w = (Ok cs, w') → same_conn fd w w'.
Proof.
  revert w cs w'. induction it as [|sock it IH]; intros w cs w' Hnotin H.
  - simpl in H. unfold ret in H. simplify_eq. apply same_conn_refl.
  - apply service_clients_cons in H as (keep & w1 & rest & Hs & Hrest & _).
    apply not_elem_of_cons in Hnotin as [Hne Hnotin].
    eapply same_conn_trans; [by eapply serviced_other|by eapply IH].
Qed.

(** ** Echo *)

Lemma sys_recv_data fd len w :
  fd ∈ w_open w → w_fault w (CRecv fd len) = None →
  w_rx w !!! fd ≠ [] → (length (w_rx w !!! fd) ≤ Z.to_nat len)%nat →
  sys_recv fd len w =
    (Ok (Z.of_nat (length (w_rx w !!! fd)), w_rx w !!! fd),
     set_rx (insert fd []) (log (CRecv fd len) w)).
Proof.
  intros Hopen Hfault Hne Hlen. unfold sys_recv, syscall, on_fd. simpl.
  rewrite Hfault. rewrite decide_True by done.
  destruct (w_rx w !!! fd) as [|b q] eqn:E; [done|].
  by rewrite take_ge, drop_ge by done.
Qed.

Lemma sys_recv_nodata fd len w n buf w1 :
  w_rx w !!! fd = [] → sys_recv fd len w = (Ok (n, buf), w1) →
  n ≤ 0 ∧ w_tx w1 = w_tx w ∧ w_rx w1 = w_rx w.
Proof.
  intros Hrx H. unfold sys_recv in H. run_unfold.
  simpl in H. rewrite Hrx in H. run_cases; (split; [lia | done]).
Qed.

Lemma sys_send_all fd data w :
  fd ∈ w_open w → w_fault w (CSend fd data) = None →
  data ≠ [] → (length data ≤ w_room w !!! fd)%nat →
  ∃ w', sys_send fd data w = (Ok (Z.of_nat (length data)), w') ∧
        w_tx w' !!! fd = w_tx w !!! fd ++ data ∧
        w_rx w' = w_rx w ∧
        w_trace w' = w_trace w ++ [CSend fd data].
Proof.
  intros Hopen Hfault Hne Hroom. unfold sys_send, syscall, on_fd. simpl.
  rewrite Hfault. rewrite decide_True by done.
  destruct (w_room w !!! fd) as [|room] eqn:E.
  - destruct data; [done | simpl in Hroom; lia].
  - rewrite take_ge by done. eexists. split; [reflexivity|]. simpl.
    by rewrite lookup_total_insert_eq.
Qed.

Lemma sys_shutdown_data fd w r w' :
  sys_shutdown fd w = (r, w') → w_tx w' = w_tx w ∧ w_rx w' = w_rx w.
Proof. unfold sys_shutdown. intros H. run_unfold. by run_cases. Qed.

Lemma sys_close_data fd w r w' :
  sys_close fd w = (r, w') → w_tx w' = w_tx w ∧ w_rx w' = w_rx w.
Proof. unfold sys_close. intros H. by run_cases. Qed.

(** Servicing the ready client [sock] when the system holds the bytes [B]
    for it. *)
Lemma service_client_echo fds sock w (B : list byte) :
  sock ∈ fds → sock ∈ w_open w →
  w_rx w !!! sock = B → Z.of_nat (length B) ≤ BUFFER_SIZE →
  w_fault w (CRecv sock BUFFER_SIZE) = None →
  w_fault w (CSend sock B) = None →
  (length B ≤ w_room w !!! sock)%nat →
  ∃ keep w', service_client fds sock w = (Ok keep, w') ∧
    w_tx w' !!! sock = w_tx w !!! sock ++ B ∧
    w_rx w' !!! sock = [] ∧
    (B ≠ [] → keep = true ∧
              w_trace w' = w_trace w ++ [CRecv sock BUFFER_SIZE; CSend sock B]).
Proof.
  intros Hready Hopen Hrx Hlen Hfr Hfs Hroom.
  destruct (decide (B = [])) as [->|Hne].
  - destruct (service_client_serviced fds sock w) as (keep & w' & E & Hs).
    exists keep, w'. split; [done|]. rewrite app_nil_r.
    destruct Hs as [Hr | n buf w1 r1 w2 r2 w3 Hr Hrecv _ _ Hsh Hcl
                       | n buf w1 r1 w2 Hr Hrecv Hpos Hsend
                       | n buf w1 Hr Hrecv _ _].
    + done.
    + apply sys_recv_nodata in Hrecv as (_ & T1 & R1); [|done].
      apply sys_shutdown_data in Hsh as [T2 R2].
      apply sys_close_data in Hcl as [T3 R3].
      rewrite T3, T2, T1, R3, R2, R1. done.
    + apply sys_recv_nodata in Hrecv as (Hn & _); [lia|done].
    + apply sys_recv_nodata in Hrecv as (_ & T1 & R1); [|done].
      rewrite T1, R1. done.
  - assert (length B ≤ Z.to_nat BUFFER_SIZE)%nat as Hlen' by lia.
    assert (0 < Z.of_nat (length B)) as Hpos by (destruct B; [done | simpl; lia]).
    unfold service_client, FD_ISSET. rewrite bool_decide_eq_true_2 by done.
    unfold bind at 1. rewrite sys_recv_data by (rewrite ?Hrx; done).
    unfold bind at 1, get_errno at 1. rewrite Hrx.
    replace (Z.of_nat (length B) <=? 0) with false by lia.
    replace (0 <? Z.of_nat (length B)) with true by lia. simpl.
    rewrite Nat2Z.id, firstn_all.
    destruct (sys_send_all sock B (set_rx (insert sock []) (log (CRecv sock BUFFER_SIZE) w)))
      as (w' & E & Htx & Hrx' & Htr); [done..|].
    unfold bind, ret. rewrite E. exists true, w'. split; [done|].
    rewrite Htx, Hrx', Htr. simpl. rewrite lookup_total_insert_eq, <-app_assoc. done.
Qed.

(** C1 (echo correctness). When the client-service loop runs over a live
    set that contains the ready descriptor [sock], for which the system
    holds the bytes [B] sent by the peer, with [B] at most [BUFFER_SIZE]
    long, and neither the read nor the write fails and the write is not
    short, then the bytes written to [sock] during the loop are exactly
    [B], in order; when [B] is not empty they are written by one send()
    of [B] on [sock] that directly follows the recv() on [sock], and
    [sock] stays in the live set. *)
Theorem echo_correct (fds : gset Z) (clients : list Z) (sock : Z) (B : list byte)
    (w : World) :
  IntSet.wf clients → sock ∈ clients → sock ∈ fds →
  sock ∈ w_open w →
  w_rx w !!! sock = B → Z.of_nat (length B) ≤ BUFFER_SIZE →
  w_fault w (CRecv sock BUFFER_SIZE) = None →
  w_fault w (CSend sock B) = None →
  (length B ≤ w_room w !!! sock)%nat →
  ∃ cs w', service_clients fds clients w = (Ok cs, w') ∧
    w_tx w' !!! sock = w_tx w !!! sock ++ B ∧
    w_rx w' !!! sock = [] ∧
    (B ≠ [] → sock ∈ cs ∧
       ∃ t1 t2, w_trace w' =
                w_trace w ++ t1 ++ [CRecv sock BUFFER_SIZE; CSend sock B] ++ t2).
Proof.
  revert w. induction clients as [|c clients IH];
    intros w Hwf Hin Hready Hopen Hrx Hlen Hfr Hfs Hroom.
  { by apply elem_of_nil in Hin. }
  apply StronglySorted_cons in Hwf as [Hlt Hwf].
  destruct (decide (c = sock)) as [->|Hne].
  - (* the element under the iterator is [sock] *)
    assert (sock ∉ clients) as Hnotin.
    { intros Hin'. rewrite Forall_forall in Hlt. specialize (Hlt _ Hin'). lia. }
    destruct (service_client_echo fds sock w B) as (keep & w1 & E & Htx & Hrx1 & Hkeep);
      [done..|].
    destruct (service_clients_returns fds clients w1) as (rest & w2 & E2).
    pose proof (service_clients_other _ _ _ _ _ _ Hnotin E2) as (R2 & T2 & _).
    destruct (service_clients_trace _ _ _ _ _ E2) as (t2 & Tr2 & _).
    exists (if keep then sock :: rest else rest), w2. split.
    { simpl. unfold bind at 1. rewrite E. unfold bind, ret. by rewrite E2. }
    split; [congruence|]. split; [congruence|].
    intros HB. destruct (Hkeep HB) as [-> Htr]. split; [apply list_elem_of_here|].
    exists [], t2. rewrite Tr2, Htr, <-!app_assoc. done.
  - (* another client is serviced first *)
    apply elem_of_cons in Hin as [->|Hin]; [done|].
    destruct (service_client_serviced fds c w) as (keep & w1 & E & Hs).
    pose proof (serviced_other _ sock _ _ _ _ Hne Hs) as (R1 & T1 & Ro1 & O1 & _ & F1).
    destruct (serviced_trace _ _ _ _ _ Hs) as (t1 & Tr1 & _).
    destruct (IH w1) as (rest & w2 & E2 & Htx & Hrx2 & Hkeep);
      [done | done | done | by apply O1 | congruence | done
       | by rewrite F1 | by rewrite F1 | by rewrite Ro1 |].
    exists (if keep then c :: rest else rest), w2. split.
    { simpl. unfold bind at 1. rewrite E. unfold bind, ret. by rewrite E2. }
    split; [congruence|]. split; [done|].
    intros HB. destruct (Hkeep HB) as (Hin' & t1' & t2' & Htr). split.
    + destruct keep; [by apply list_elem_of_further | done].
    + exists (t1 ++ t1'), t2'. rewrite Htr, Tr1, <-!app_assoc. done.
Qed.

(** ** Servicing the listener *)

Lemma service_listener_listened lfd fds cs w :
  ∃ r w', service_listener lfd fds cs w = (r, w') ∧ listened lfd fds cs w r w'.
Proof.
  unfold service_listener. destruct (FD_ISSET lfd fds) eqn:Hready.
  2:{ eexists _, _. split; [reflexivity|]. by constructor. }
  unfold bind at 1.
  destruct (sys_accept_returns lfd w) as (sock & w1 & Hacc). rewrite Hacc.
  unfold bind at 1, throw_if at 1.
  destruct (Z.eqb_spec sock (-1)) as [->|Hsock].
  { eexists _, _. split; [reflexivity|]. by constructor. }
  unfold ret at 1, bind at 1, setFdNonblock, bind at 1.
  destruct (sys_fcntl_getfl_returns sock w1) as (flags & w2 & Hget). rewrite Hget.
  unfold bind at 1.
  destruct (sys_fcntl_setfl_returns sock (Z.lor flags O_NONBLOCK) w2)
    as (r & w3 & Hset).
  rewrite Hset. unfold throw_if.
  destruct (Z.eqb_spec r (-1)) as [->|Hr].
  - eexists _, _. split; [reflexivity|]. by eapply listened_nonblock_failed.
  - eexists _, _. split; [reflexivity|]. by eapply listened_accepted.
Qed.

Lemma service_listener_inv lfd fds cs w r w' :
  service_listener lfd fds cs w = (r, w') → listened lfd fds cs w r w'.
Proof.
  intros H. destruct (service_listener_listened lfd fds cs w) as (r1 & w1 & E & Hl).
  rewrite E in H. by simplify_eq.
Qed.

Lemma listened_trace lfd fds cs w r w' :
  listened lfd fds cs w r w' →
  ∃ t, w_trace w' = w_trace w ++ t ∧
       Forall (λ c, is_io c = false) t ∧
       (lfd ∉ fds → t = []) ∧
       (lfd ∈ fds → ∃ t', t = CAccept lfd :: t') ∧
       (lfd ∈ fds → ∀ cs', r = Ok cs' →
          ∃ sock flags, t = [CAccept lfd; CFcntlGetfl sock; CFcntlSetfl sock flags] ∧
                        cs' = IntSet.insert sock cs).
Proof.
  unfold FD_ISSET.
  intros [Hr | w1 Hr Hacc
             | sock w1 flags w2 w3 Hr Hacc Hs Hget Hset
             | sock w1 flags w2 r' w3 Hr Hacc Hs Hget Hset Hr'].
  - apply bool_decide_eq_false in Hr. exists []. rewrite app_nil_r.
    split_and!; [done | done | done | done | done].
  - apply bool_decide_eq_true in Hr. apply sys_accept_makes in Hacc as [T1 _].
    exists [CAccept lfd]. split_and!; [done | by repeat constructor | done | eauto | done].
  - apply bool_decide_eq_true in Hr.
    apply sys_accept_makes in Hacc as [T1 _].
    apply sys_fcntl_getfl_makes in Hget as [T2 _].
    apply sys_fcntl_setfl_makes in Hset as [T3 _].
    eexists [CAccept lfd; CFcntlGetfl sock; CFcntlSetfl sock _].
    rewrite T3, T2, T1, <-!app_assoc.
    split_and!; [done | by repeat constructor | done | eauto | done].
  - apply bool_decide_eq_true in Hr.
    apply sys_accept_makes in Hacc as [T1 _].
    apply sys_fcntl_getfl_makes in Hget as [T2 _].
    apply sys_fcntl_setfl_makes in Hset as [T3 _].
    eexists [CAccept lfd; CFcntlGetfl sock; CFcntlSetfl sock _].
    rewrite T3, T2, T1, <-!app_assoc.
    split_and!; [done | by repeat constructor | done | eauto | ].
    intros _ cs' ?. simplify_eq. eauto.
Qed.

(** The first call of a turn of the loop is the select() on the interest
    set built from the listener and the live set. *)
Lemma iteration_select lfd cs w r w' :
  iteration lfd cs w = (r, w') →
  ∃ t, w_trace w' =
       w_trace w ++ CSelect (maxSocketId lfd cs + 1) (interest lfd cs) :: t.
Proof.
  unfold iteration. intros H. unfold bind at 1 in H.
  destruct (sys_select _ _ w) as [[fds|e|] w0] eqn:Hsel;
    pose proof (sys_select_makes _ _ _ _ _ Hsel) as [T0 _].
  - unfold bind at 1 in H.
    destruct (service_clients_returns fds cs w0) as (cs1 & w1 & E1).
    rewrite E1 in H.
    apply service_clients_trace in E1 as (t1 & T1 & _).
    apply service_listener_inv, listened_trace in H as (t2 & T2 & _).
    exists (t1 ++ t2). rewrite T2, T1, T0, <-!app_assoc. done.
  - simplify_eq. exists []. done.
  - simplify_eq. exists []. done.
Qed.

(** ** The window of select() *)

Lemma maxSocketId_empty (s : Z) : maxSocketId s [] = s.
Proof. reflexivity. Qed.

Lemma maxSocketId_nonempty (s : Z) (C : list Z) :
  C ≠ [] → maxSocketId s C = Z.max s (IntSet.rbegin C).
Proof. by destruct C. Qed.

Lemma maxSocketId_bound (s : Z) (C : list Z) (x : Z) :
  IntSet.wf C → x ∈ interest s C → x < maxSocketId s C + 1.
Proof.
  intros Hwf Hx. apply elem_of_interest in Hx.
  destruct (decide (C = [])) as [->|Hne].
  - rewrite maxSocketId_empty. rewrite elem_of_nil in Hx. lia.
  - rewrite maxSocketId_nonempty by done.
    destruct Hx as [->|Hx]; [lia|].
    pose proof (IntSet_rbegin_largest C x Hwf Hx). lia.
Qed.

(** C10. For a server socket [s] and a set [C] of client descriptors,
    [maxSocketId s C] is [s] when [C] is empty and otherwise the maximum
    of [s] and the largest element of [C]; the first argument of the
    select() call of a turn of the loop, [maxSocketId s C + 1], is above
    every descriptor of the interest set passed with it. *)
Theorem maxSocketId_spec (s : Z) (C : list Z) :
  IntSet.wf C →
  (C = [] → maxSocketId s C = s) ∧
  (C ≠ [] → ∃ m, m ∈ C ∧ (∀ x, x ∈ C → x ≤ m) ∧ maxSocketId s C = Z.max s m) ∧
  (∀ w r w', iteration s C w = (r, w') →
     ∃ nfds fds t, w_trace w' = w_trace w ++ CSelect nfds fds :: t ∧
                   nfds = maxSocketId s C + 1 ∧
                   (∀ x, x ∈ fds ↔ x = s ∨ x ∈ C) ∧
                   (∀ x, x ∈ fds → x < nfds)).
Proof.
  intros Hwf. split_and!.
  - by intros ->.
  - intros Hne. exists (IntSet.rbegin C). split_and!.
    + by apply IntSet_rbegin_elem.
    + intros x Hx. by apply IntSet_rbegin_largest.
    + by apply maxSocketId_nonempty.
  - intros w r w' H. apply iteration_select in H as (t & T).
    eexists _, _, t. split_and!; [exact T | done | apply elem_of_interest |].
    intros x Hx. by apply maxSocketId_bound.
Qed.

(** ** Accepting a connection *)

Lemma sys_fcntl_setfl_ok fd flags w r w' :
  sys_fcntl_setfl fd flags w = (Ok r, w') → r ≠ -1 →
  w_flags w' !!! fd = flags ∧ w_net w' = w_net w.
Proof.
  unfold sys_fcntl_setfl. intros H Hr. run_unfold. run_cases.
  by rewrite lookup_total_insert_eq.
Qed.

Lemma sys_fcntl_getfl_net fd w r w' :
  sys_fcntl_getfl fd w = (r, w') → w_net w' = w_net w.
Proof. unfold sys_fcntl_getfl. intros H. run_unfold. by run_cases. Qed.

Lemma sys_accept_ok fd w sock w' :
  sys_accept fd w = (Ok sock, w') → sock ≠ -1 →
  ∃ c, w_net w = c :: w_net w' ∧ sock ∈ w_open w'.
Proof.
  unfold sys_accept. intros H Hs. run_unfold. run_cases.
  eexists. split; [done|]. set_solver.
Qed.

Lemma O_NONBLOCK_set (flags : Z) : Z.testbit (Z.lor flags O_NONBLOCK) 11 = true.
Proof. rewrite Z.lor_spec. apply orb_true_r. Qed.

(** The ways through the listener phase, with what each leaves. *)
Lemma listened_detail lfd fds cs w r w' :
  listened lfd fds cs w r w' →
  ((lfd ∉ fds) ∧ r = Ok cs ∧ w' = w)
  ∨ (lfd ∈ fds ∧ ∃ sock w1,
       sys_accept lfd w = (Ok sock, w1) ∧
       ((sock = -1 ∧ r = Throw (ft_exception "accept()") ∧ w' = w1 ∧
         w_trace w' = w_trace w ++ [CAccept lfd])
        ∨ (sock ≠ -1 ∧ ∃ flags w2 r2,
             sys_fcntl_getfl sock w1 = (Ok flags, w2) ∧
             sys_fcntl_setfl sock (Z.lor flags O_NONBLOCK) w2 = (Ok r2, w') ∧
             w_trace w' =
               w_trace w ++ [CAccept lfd; CFcntlGetfl sock;
                             CFcntlSetfl sock (Z.lor flags O_NONBLOCK)] ∧
             ((r2 = -1 ∧ r = Throw (ft_exception "fcntl(F_SETFL)"))
              ∨ (r2 ≠ -1 ∧ r = Ok (IntSet.insert sock cs)))))).
Proof.
  unfold FD_ISSET.
  intros [Hr | w1 Hr Hacc
             | sock w1 flags w2 w3 Hr Hacc Hs Hget Hset
             | sock w1 flags w2 r' w3 Hr Hacc Hs Hget Hset Hr'].
  - left. apply bool_decide_eq_false in Hr. done.
  - right. apply bool_decide_eq_true in Hr. split; [done|].
    exists (-1), w1. split; [done|]. left.
    apply sys_accept_makes in Hacc as [T1 _]. done.
  - right. apply bool_decide_eq_true in Hr. split; [done|].
    exists sock, w1. split; [done|]. right. split; [done|].
    exists flags, w2, (-1). split; [done|]. split; [done|].
    apply sys_accept_makes in Hacc as [T1 _].
    apply sys_fcntl_getfl_makes in Hget as [T2 _].
    apply sys_fcntl_setfl_makes in Hset as [T3 _].
    rewrite T3, T2, T1, <-!app_assoc. split; [done|]. by left.
  - right. apply bool_decide_eq_true in Hr. split; [done|].
    exists sock, w1. split; [done|]. right. split; [done|].
    exists flags, w2, r'. split; [done|]. split; [done|].
    apply sys_accept_makes in Hacc as [T1 _].
    apply sys_fcntl_getfl_makes in Hget as [T2 _].
    apply sys_fcntl_setfl_makes in Hset as [T3 _].
    rewrite T3, T2, T1, <-!app_assoc. split; [done|]. by right.
Qed.

(** A turn of the loop is its select(), its client phase and its
    listener phase. *)
Lemma turn_of_iteration lfd clients wpre fds cs w :
  turn_of lfd clients wpre fds cs w →
  iteration lfd clients wpre = service_listener lfd fds cs w.
Proof.
  intros (w0 & Hsel & Hcl). unfold iteration, bind. by rewrite Hsel, Hcl.
Qed.

(** The loop after one turn: an exception or a suspension of the turn is
    that of the loop, whatever turns were still to come; a turn that
    completes hands its live set to the next. *)
Lemma event_loop_S fuel lfd clients w r w' :
  iteration lfd clients w = (r, w') →
  event_loop (S fuel) lfd clients w =
    match r with
    | Ok cs' => event_loop fuel lfd cs' w'
    | Throw e => (Throw e, w')
    | Block => (Block, w')
    end.
Proof. intros H. simpl. unfold bind. rewrite H. by destruct r. Qed.

(** C8, amended. When the listening descriptor is marked ready, the
    server calls accept() once. If accept() reports an error the
    listener phase throws "accept()", and in the loop this ends the turn
    and the loop: whatever turns were still to come, the loop's result is
    that exception. Otherwise one pending connection has left the queue
    and the server tries to switch its descriptor to non-blocking mode:
    if that fcntl() fails the phase throws "fcntl(F_SETFL)", the
    descriptor is not added to the live set, and the turn and the loop
    end with that exception in the same way; if it succeeds the
    descriptor has O_NONBLOCK set and is added to the live set, with
    which the loop goes on to its next turn. *)
Theorem listener_ready (lfd : Z) (fds : gset Z) (cs : list Z) (w : World) :
  lfd ∈ fds →
  ∃ sock w1 r w',
    sys_accept lfd w = (Ok sock, w1) ∧
    service_listener lfd fds cs w = (r, w') ∧
    (∀ clients wpre, turn_of lfd clients wpre fds cs w →
       iteration lfd clients wpre = (r, w')) ∧
    (sock = -1 →
       r = Throw (ft_exception "accept()") ∧ w' = w1 ∧
       ∀ clients wpre fuel, turn_of lfd clients wpre fds cs w →
         event_loop (S fuel) lfd clients wpre
           = (Throw (ft_exception "accept()"), w')) ∧
    (sock ≠ -1 →
       (∃ c, w_net w = c :: w_net w') ∧
       ∃ flags w2 r2,
         sys_fcntl_getfl sock w1 = (Ok flags, w2) ∧
         sys_fcntl_setfl sock (Z.lor flags O_NONBLOCK) w2 = (Ok r2, w') ∧
         w_trace w' =
           w_trace w ++ [CAccept lfd; CFcntlGetfl sock;
                         CFcntlSetfl sock (Z.lor flags O_NONBLOCK)] ∧
         (r2 = -1 →
            r = Throw (ft_exception "fcntl(F_SETFL)") ∧
            ∀ clients wpre fuel, turn_of lfd clients wpre fds cs w →
              event_loop (S fuel) lfd clients wpre
                = (Throw (ft_exception "fcntl(F_SETFL)"), w')) ∧
         (r2 ≠ -1 →
            r = Ok (IntSet.insert sock cs) ∧
            w_flags w' !!! sock = Z.lor flags O_NONBLOCK ∧
            Z.testbit (w_flags w' !!! sock) 11 = true ∧
            ∀ clients wpre fuel, turn_of lfd clients wpre fds cs w →
              event_loop (S fuel) lfd clients wpre
                = event_loop fuel lfd (IntSet.insert sock cs) w')).
Proof.
  intros Hready.
  destruct (service_listener_listened lfd fds cs w) as (r & w' & E & Hl).
  assert (∀ clients wpre, turn_of lfd clients wpre fds cs w →
            iteration lfd clients wpre = (r, w')) as Hturn.
  { intros clients wpre Ht. by rewrite (turn_of_iteration _ _ _ _ _ _ Ht). }
  pose proof Hl as Hl'.
  apply listened_detail in Hl as [(? & _) | (_ & sock & w1 & Hacc & Hcase)]; [done|].
  exists sock, w1, r, w'. split; [done|]. split; [done|]. split; [done|].
  destruct Hcase as [(-> & -> & -> & Ht)
                    | (Hs & flags & w2 & r2 & Hget & Hset & Ht & Hr2)].
  - split; [|done]. intros _. split_and!; [done | done |].
    intros clients wpre fuel Hto.
    by rewrite (event_loop_S fuel _ _ _ _ _ (Hturn _ _ Hto)).
  - split; [done|]. intros _.
    destruct (sys_accept_ok _ _ _ _ Hacc Hs) as (c & Hnet & _).
    pose proof (sys_fcntl_getfl_net _ _ _ _ Hget) as N2.
    split.
    { exists c. rewrite Hnet, <-N2. f_equal.
      clear -Hset. unfold sys_fcntl_setfl in Hset. run_unfold. by run_cases. }
    exists flags, w2, r2. split; [done|]. split; [done|]. split; [done|].
    destruct Hr2 as [[-> ->] | [Hr2 ->]].
    + split; [|done]. intros _. split; [done|].
      intros clients wpre fuel Hto.
      by rewrite (event_loop_S fuel _ _ _ _ _ (Hturn _ _ Hto)).
    + split; [done|]. intros _.
      destruct (sys_fcntl_setfl_ok _ _ _ _ _ Hset Hr2) as [Hfl _].
      split_and!; [done | done | by rewrite Hfl; apply O_NONBLOCK_set |].
      intros clients wpre fuel Hto.
      by rewrite (event_loop_S fuel _ _ _ _ _ (Hturn _ _ Hto)).
Qed.

(** ** Order of service within a turn of the loop *)

(** C4, amended. In a turn of the loop in which select() returned the
    ready set [fds], the calls after select() are those of the client
    phase, [t1], followed by those of the listener phase, [t2]: the
    descriptors read in [t1] are the ready clients, each once, in
    ascending order, and [t1] has no accept(); [t2] is empty when the
    listener is not ready, and otherwise starts with the accept() and has
    no recv() or send(), so that the connection accepted in this turn is
    neither read nor written in it. When accept() returns a descriptor
    and the switch to non-blocking mode succeeds, the turn completes with
    the descriptor in the live set, the loop goes on to its next turn
    with that live set, and the select() that opens that turn has the
    descriptor in its interest set, below [nfds]. When the switch fails,
    the turn and the loop end with the exception "fcntl(F_SETFL)": there
    is no next turn. *)
Theorem iteration_order (lfd : Z) (clients : list Z) (w : World)
    (fds : gset Z) (w0 : World) (r : Res (list Z)) (w' : World) :
  IntSet.wf clients →
  sys_select (maxSocketId lfd clients + 1) (interest lfd clients) w = (Ok fds, w0) →
  iteration lfd clients w = (r, w') →
  ∃ cs1 w1 t1 t2,
    service_clients fds clients w0 = (Ok cs1, w1) ∧
    service_listener lfd fds cs1 w1 = (r, w') ∧
    w_trace w1 = w_trace w0 ++ t1 ∧
    w_trace w' = w_trace w0 ++ t1 ++ t2 ∧
    omap read_fd t1 = filter (λ fd, fd ∈ fds) clients ∧
    StronglySorted Z.lt (omap read_fd t1) ∧
    Forall (λ c, is_accept c = false) t1 ∧
    Forall (λ c, is_io c = false) t2 ∧
    (lfd ∉ fds → t2 = [] ∧ r = Ok cs1) ∧
    (lfd ∈ fds →
       ∃ sock w2,
         sys_accept lfd w1 = (Ok sock, w2) ∧
         (∃ t, t2 = CAccept lfd :: t) ∧
         (sock = -1 → r = Throw (ft_exception "accept()")) ∧
         (sock ≠ -1 →
            ∃ flags w3 r2,
              sys_fcntl_getfl sock w2 = (Ok flags, w3) ∧
              sys_fcntl_setfl sock (Z.lor flags O_NONBLOCK) w3 = (Ok r2, w') ∧
              t2 = [CAccept lfd; CFcntlGetfl sock;
                    CFcntlSetfl sock (Z.lor flags O_NONBLOCK)] ∧
              (r2 ≠ -1 →
                 r = Ok (IntSet.insert sock cs1) ∧
                 sock ∈ IntSet.insert sock cs1 ∧
                 (∀ fuel, event_loop (S fuel) lfd clients w
                          = event_loop fuel lfd (IntSet.insert sock cs1) w') ∧
                 ∀ r' w'', iteration lfd (IntSet.insert sock cs1) w' = (r', w'') →
                   ∃ nfds fds' t,
                     w_trace w'' = w_trace w' ++ CSelect nfds fds' :: t ∧
                     sock ∈ fds' ∧ sock < nfds) ∧
              (r2 = -1 →
                 r = Throw (ft_exception "fcntl(F_SETFL)") ∧
                 ∀ fuel, event_loop (S fuel) lfd clients w
                         = (Throw (ft_exception "fcntl(F_SETFL)"), w')))).
Proof.
  intros Hwf Hsel Hit.
  destruct (service_clients_returns fds clients w0) as (cs1 & w1 & E1).
  assert (service_listener lfd fds cs1 w1 = (r, w')) as E2.
  { unfold iteration, bind in Hit. by rewrite Hsel, E1 in Hit. }
  destruct (service_clients_trace _ _ _ _ _ E1) as (t1 & T1 & R1 & A1 & _).
  pose proof (service_listener_inv _ _ _ _ _ _ E2) as Hl.
  assert (∃ t2, w_trace w' = w_trace w1 ++ t2) as [t2 T2].
  { destruct (listened_trace _ _ _ _ _ _ Hl) as (t2 & T2 & _). eauto. }
  assert (∀ t, w_trace w' = w_trace w1 ++ t → t2 = t) as Huniq.
  { intros t Ht. rewrite T2 in Ht. by apply app_inv_head in Ht. }
  exists cs1, w1, t1, t2.
  apply listened_detail in Hl
    as [(Hnr & -> & ->) | (Hr & sock & w2 & Hacc & Hcase)].
  - (* the listener is not ready *)
    assert (t2 = []) as -> by (apply Huniq; by rewrite app_nil_r).
    split_and!; try done.
    + by rewrite T1, app_nil_r.
    + rewrite R1. by apply IntSet_wf_filter.
  - split_and!; try done.
    + by rewrite T2, T1, <-app_assoc.
    + rewrite R1. by apply IntSet_wf_filter.
    + destruct Hcase as [(_ & _ & _ & Ht) | (_ & flags & w3 & r2 & _ & _ & Ht & _)];
        apply Huniq in Ht as ->; by repeat constructor.
    + intros _. exists sock, w2. split; [done|].
      destruct Hcase as [(-> & -> & -> & Ht)
                        | (Hs & flags & w3 & r2 & Hget & Hset & Ht & Hr2)].
      * apply Huniq in Ht as ->. split_and!; [eauto | done | done].
      * apply Huniq in Ht as ->. split_and!; [eauto | done |]. intros _.
        exists flags, w3, r2. split_and!; [done | done | done | |].
        -- intros Hok. destruct Hr2 as [[? _] | [_ ->]]; [done|].
           assert (sock ∈ IntSet.insert sock cs1) as Hin.
           { apply IntSet_elem_of_insert. by left. }
           split_and!; [done | done | |].
           ++ intros fuel. by rewrite (event_loop_S fuel _ _ _ _ _ Hit).
           ++ intros r' w'' Hnext. apply iteration_select in Hnext as (t & T).
              eexists _, _, t. split; [exact T|].
              assert (sock ∈ interest lfd (IntSet.insert sock cs1)) as Hint.
              { apply elem_of_interest. by right. }
              split; [done|]. apply maxSocketId_bound; [|done].
              apply IntSet_insert_wf. eapply IntSet_wf_sublist; [|exact Hwf].
              by eapply service_clients_sublist.
        -- intros Hfail. destruct Hr2 as [[_ ->] | [? _]]; [|done].
           split; [done|]. intros fuel.
           by rewrite (event_loop_S fuel _ _ _ _ _ Hit).
Qed.

(** ** Construction of the listening socket *)

Lemma lowest_free_fresh (s : gset Z) (n : nat) (fd : Z) :
  (size (filter (λ x : Z, (fd ≤ x)%Z) s) ≤ n)%nat → lowest_free s n fd ∉ s.
Proof.
  revert fd. induction n as [|n IH]; intros fd Hsize; simpl.
  - assert (filter (λ x, fd ≤ x) s = ∅) as Hempty.
    { apply leibniz_equiv, size_empty_iff. lia. }
    intros Hin. assert (fd ∈ filter (λ x, fd ≤ x) s) as Hf.
    { apply elem_of_filter. split; [lia | done]. }
    rewrite Hempty in Hf. by apply not_elem_of_empty in Hf.
  - destruct (decide (fd ∈ s)) as [Hin|Hnotin]; [|done].
    apply IH.
    assert (filter (λ x, fd ≤ x) s = {[fd]} ∪ filter (λ x, fd + 1 ≤ x) s) as Hsplit.
    { apply set_eq. intros x. rewrite elem_of_union, !elem_of_filter, elem_of_singleton.
      split; [intros [? ?]|intros [->|[? ?]]].
      - destruct (decide (x = fd)); [by left | right; split; [lia | done]].
      - split; [lia | done].
      - split; [lia | done]. }
    rewrite Hsplit, size_union, size_singleton in Hsize; [lia|].
    apply disjoint_singleton_l. rewrite elem_of_filter. lia.
Qed.

Lemma fresh_fd_fresh (s : gset Z) : fresh_fd s ∉ s.
Proof.
  apply lowest_free_fresh, subseteq_size. intros x. rewrite elem_of_filter. tauto.
Qed.

Lemma sys_socket_ok w fd w1 :
  sys_socket w = (Ok fd, w1) → 0 ≤ fd →
  (fd ∉ w_open w) ∧ w_open w1 = {[fd]} ∪ w_open w ∧ w_trace w1 = w_trace w ++ [CSocket].
Proof.
  unfold sys_socket. intros H Hfd. run_unfold. run_cases; [lia|].
  split; [apply fresh_fd_fresh | done].
Qed.

Lemma ServerSocket_configure_inv fd port w r w' :
  ServerSocket_configure fd port w = (r, w') →
  w_open w' = w_open w ∧
  (∃ t, w_trace w' = w_trace w ++ t) ∧
  (r = Ok tt ∨ r = Throw (ft_exception "setsockopt()") ∨
   r = Throw (ft_exception "fcntl(F_SETFL)") ∨ r = Throw (ft_exception "bind()")).
Proof.
  unfold ServerSocket_configure, setFdNonblock, sys_setsockopt, sys_fcntl_getfl,
    sys_fcntl_setfl, sys_bind.
  intros H. run_unfold. run_cases;
    (split; [done|]); (split; [rewrite <-?app_assoc; eauto|]); eauto.
Qed.

Lemma sys_close_ok fd w r w' :
  sys_close fd w = (r, w') →
  w_open w' = w_open w ∖ {[fd]} ∧ w_trace w' = w_trace w ++ [CClose fd] ∧
  ∃ n, r = Ok n.
Proof. unfold sys_close. intros H. run_cases; eauto. Qed.

Lemma sys_socket_returns : returns sys_socket.
Proof. unfold sys_socket. returns_tac. Qed.

(** The ways through the constructor. *)
Lemma ServerSocket_new_inv port w r w' :
  ServerSocket_new port w = (r, w') →
  ((port ≤ 0 ∨ 65535 < port) ∧ r = Throw (ft_exception "Invalid port") ∧ w' = w)
  ∨ (0 < port ≤ 65535 ∧ ∃ fd w1, sys_socket w = (Ok fd, w1) ∧
      ((fd < 0 ∧ r = Throw (ft_exception "socket()") ∧ w' = w1)
       ∨ (0 ≤ fd ∧ ∃ r1 w2, ServerSocket_configure fd port w1 = (r1, w2) ∧
            ((r1 = Ok tt ∧ r = Ok (mkServerSocket fd false) ∧ w' = w2)
             ∨ ((∃ e, r1 = Throw e) ∧ r = Throw std_exception ∧
                ∃ n, sys_close fd w2 = (Ok n, w')))))).
Proof.
  unfold ServerSocket_new. intros H.
  destruct (Z.leb_spec port 0) as [Hlo|Hlo]; simpl in H.
  { left. unfold throw in H. simplify_eq. split; [by left | done]. }
  destruct (Z.ltb_spec 65535 port) as [Hhi|Hhi]; simpl in H.
  { left. unfold throw in H. simplify_eq. split; [by right | done]. }
  right. split; [lia|].
  destruct (sys_socket_returns w) as (fd & w1 & Hsock).
  unfold bind at 1 in H. rewrite Hsock in H. exists fd, w1. split; [done|].
  destruct (Z.ltb_spec fd 0) as [Hfd|Hfd].
  { left. unfold throw in H. by simplify_eq. }
  right. split; [done|].
  destruct (ServerSocket_configure fd port w1) as [r1 w2] eqn:Hconf.
  exists r1, w2. split; [done|].
  unfold bind, try_catch in H. rewrite Hconf in H.
  destruct (ServerSocket_configure_inv _ _ _ _ _ Hconf) as (_ & _ & Hr1).
  destruct Hr1 as [->|Hthrow].
  - left. unfold ret in H. by simplify_eq.
  - right.
    assert (∃ e, r1 = Throw e) as [e ->] by (destruct Hthrow as [->|[->| ->]]; eauto).
    split; [eauto|].
    destruct (sys_close fd w2) as [rc w3] eqn:Hclose.
    destruct (sys_close_ok _ _ _ _ Hclose) as (_ & _ & n & ->).
    unfold throw, copy_as_std_exception in H. simplify_eq. eauto.
Qed.

(** C6. Constructing a server with port [p] fails with "Invalid port"
    exactly when [p <= 0] or [p > 65535]; and then the world is as it
    was before the call: no system call was made, so no socket was
    created. *)
Theorem invalid_port (p : Z) (w : World) :
  ((p ≤ 0 ∨ 65535 < p) ↔
     ∃ w', Server_new p w = (Throw (ft_exception "Invalid port"), w')) ∧
  (∀ w', Server_new p w = (Throw (ft_exception "Invalid port"), w') →
     w' = w ∧ w_trace w' = w_trace w ∧ w_open w' = w_open w).
Proof.
  assert (∀ w', Server_new p w = (Throw (ft_exception "Invalid port"), w') →
                (p ≤ 0 ∨ 65535 < p) ∧ w' = w) as Hinv.
  { intros w' H. unfold Server_new, bind in H.
    destruct (ServerSocket_new p w) as [[s|e|] w1] eqn:Hnew; [done | | done].
    simplify_eq.
    apply ServerSocket_new_inv in Hnew
      as [(Hp & _ & ->) | (_ & fd & w1 & _ & [(_ & ? & _) | (_ & r1 & w2 & _ & Hc)])];
      [done | done |].
    destruct Hc as [(_ & ? & _) | (_ & ? & _)]; done. }
  split; [split|].
  - intros Hp. exists w. unfold Server_new, ServerSocket_new, bind.
    replace ((p <=? 0) || (65535 <? p)) with true; [done|].
    symmetry. apply orb_true_iff. lia.
  - intros [w' H]. by apply Hinv in H as [? _].
  - intros w' H. apply Hinv in H as [_ ->]. done.
Qed.

(** C7. When the constructor of [ServerSocket], called with a valid port,
    fails after socket() has returned a descriptor [fd], the failure is that of setsockopt(), of
    the switch to non-blocking mode or of bind(), and when the exception
    leaves the constructor the last system call made is close(fd): [fd]
    is not open any more, and the open descriptors are those from before
    the constructor was entered. *)
Theorem constructor_releases (port : Z) (w : World) (fd : Z) (w1 : World)
    (e : exn) (w' : World) :
  0 < port ≤ 65535 →
  sys_socket w = (Ok fd, w1) → 0 ≤ fd →
  ServerSocket_new port w = (Throw e, w') →
  (∃ e0 w2, ServerSocket_configure fd port w1 = (Throw e0, w2) ∧
     (e0 = ft_exception "setsockopt()" ∨ e0 = ft_exception "fcntl(F_SETFL)" ∨
      e0 = ft_exception "bind()") ∧
     w_trace w' = w_trace w2 ++ [CClose fd]) ∧
  (fd ∈ w_open w1) ∧
  (fd ∉ w_open w') ∧
  w_open w' = w_open w.
Proof.
  intros Hport Hsock Hfd Hnew.
  destruct (sys_socket_ok _ _ _ Hsock Hfd) as (Hfresh & Hopen1 & _).
  apply ServerSocket_new_inv in Hnew
    as [(Hp & _) | (_ & fd' & w1' & Hsock' & Hrest)]; [lia|].
  rewrite Hsock in Hsock'. simplify_eq.
  destruct Hrest as [(? & _) | (_ & r1 & w2 & Hconf & Hc)]; [lia|].
  destruct Hc as [(_ & ? & _) | ((e0 & ->) & _ & n & Hclose)]; [done|].
  destruct (ServerSocket_configure_inv _ _ _ _ _ Hconf) as (Hopen2 & _ & He0).
  destruct (sys_close_ok _ _ _ _ Hclose) as (Hopen3 & Htrace & _).
  split_and!.
  - exists e0, w2. split; [done|]. split; [|done].
    destruct He0 as [?|[?|[?|?]]]; simplify_eq; eauto.
  - rewrite Hopen1. set_solver.
  - rewrite Hopen3. set_solver.
  - rewrite Hopen3, Hopen2, Hopen1. set_solver.
Qed.

(** ** [main] *)

(** C9. Started with an argument count other than two (the program name
    and one argument), the process writes the line "Usage: port" to
    standard error and returns EXIT_SUCCESS; it makes no system call, so
    no server is constructed. *)
Theorem usage_exit (fuel : nat) (argv : list string) (w : World) :
  length argv ≠ 2%nat →
  ∃ w', main fuel argv w = (Exit EXIT_SUCCESS, w') ∧
        EXIT_SUCCESS = 0 ∧
        w_stderr w' = w_stderr w ++ ["Usage: port"] ∧
        w_trace w' = w_trace w ∧
        w_open w' = w_open w.
Proof.
  intros Hargc. unfold main.
  replace (length argv =? 2)%nat with false by (symmetry; by apply Nat.eqb_neq).
  simpl. eexists. split_and!; reflexivity.
Qed.

(** ** What reaches standard error *)

Lemma same_stderr_refl w : same_stderr w w.
Proof. done. Qed.

Lemma same_stderr_trans w1 w2 w3 :
  same_stderr w1 w2 → same_stderr w2 w3 → same_stderr w1 w3.
Proof. unfold same_stderr. congruence. Qed.

Ltac same_stderr_tac :=
  intros w r w' H; unfold same_stderr; run_unfold; by run_cases.

Lemma sys_socket_stderr : preserves same_stderr sys_socket.
Proof. unfold sys_socket. same_stderr_tac. Qed.
Lemma sys_setsockopt_stderr fd : preserves same_stderr (sys_setsockopt fd).
Proof. unfold sys_setsockopt. same_stderr_tac. Qed.
Lemma sys_fcntl_getfl_stderr fd : preserves same_stderr (sys_fcntl_getfl fd).
Proof. unfold sys_fcntl_getfl. same_stderr_tac. Qed.
Lemma sys_fcntl_setfl_stderr fd fl : preserves same_stderr (sys_fcntl_setfl fd fl).
Proof. unfold sys_fcntl_setfl. same_stderr_tac. Qed.
Lemma sys_bind_stderr fd port : preserves same_stderr (sys_bind fd port).
Proof. unfold sys_bind. same_stderr_tac. Qed.
Lemma sys_close_stderr fd : preserves same_stderr (sys_close fd).
Proof. unfold sys_close. same_stderr_tac. Qed.

Create HintDb stderr discriminated.
#[local] Hint Resolve sys_socket_stderr sys_setsockopt_stderr sys_fcntl_getfl_stderr
  sys_fcntl_setfl_stderr sys_bind_stderr sys_close_stderr : stderr.

Ltac stderr_steps :=
  repeat first [ preserves_step same_stderr_refl same_stderr_trans
               | solve [auto with stderr] ].

Lemma ServerSocket_new_stderr port : preserves same_stderr (ServerSocket_new port).
Proof.
  unfold ServerSocket_new, ServerSocket_configure, setFdNonblock. stderr_steps.
Qed.

Lemma Server_delete_stderr server : preserves same_stderr (Server_delete server).
Proof. unfold Server_delete, ServerSocket_delete. stderr_steps. Qed.

(** An [ft::exception] that leaves the constructor is reported. *)
Lemma main_reports_constructor_failure fuel prog arg w message w1 :
  Server_new (atoi arg) w = (Throw (ft_exception message), w1) →
  ∃ w', main fuel [prog; arg] w = (Exit EXIT_FAILURE, w') ∧
        w_stderr w' = w_stderr w1 ++ [message].
Proof. intros H. unfold main. simpl. rewrite H. simpl. eauto. Qed.

(** An [ft::exception] that leaves [start] is reported, after the server
    has been destroyed. *)
Lemma main_reports_start_failure fuel prog arg w server w1 message w2 :
  Server_new (atoi arg) w = (Ok server, w1) →
  Server_start fuel server w1 = (Throw (ft_exception message), w2) →
  ∃ w', main fuel [prog; arg] w = (Exit EXIT_FAILURE, w') ∧
        w_stderr w' = w_stderr w2 ++ [message].
Proof.
  intros H1 H2. unfold main. simpl. rewrite H1, H2.
  destruct (Server_delete server w2) as [r w3] eqn:Hdel.
  apply Server_delete_stderr in Hdel. unfold same_stderr in Hdel.
  rewrite <-Hdel. simpl. eauto.
Qed.

(** The copy thrown by [throw e] in the constructor has no handler in
    [main]: whichever of the three steps failed, the process ends in
    [std::terminate] and [main] writes nothing to standard error. *)
Lemma main_terminates_on_configure_failure fuel prog arg w fd w1 e0 w2 :
  0 < atoi arg ≤ 65535 →
  sys_socket w = (Ok fd, w1) → 0 ≤ fd →
  ServerSocket_configure fd (atoi arg) w1 = (Throw e0, w2) →
  ∃ w', main fuel [prog; arg] w = (Terminate, w') ∧ w_stderr w' = w_stderr w.
Proof.
  intros Hport Hsock Hfd Hconf.
  destruct (ServerSocket_new (atoi arg) w) as [r w'] eqn:Hnew.
  pose proof (ServerSocket_new_stderr _ _ _ _ Hnew) as Hstderr.
  unfold same_stderr in Hstderr.
  pose proof Hnew as Hinv.
  apply ServerSocket_new_inv in Hinv
    as [(Hp & _) | (_ & fd' & w1' & Hsock' & Hrest)]; [lia|].
  rewrite Hsock in Hsock'. simplify_eq.
  destruct Hrest as [(? & _) | (_ & r1 & w2' & Hconf' & Hc)]; [lia|].
  rewrite Hconf in Hconf'. simplify_eq.
  destruct Hc as [(? & _) | (_ & -> & _)]; [done|].
  exists w'. split; [|done].
  unfold main, Server_new, bind. simpl. by rewrite Hnew.
Qed.

(** ** The check of errno after a read of zero bytes *)

(** When errno does not hold EAGAIN, a read of zero bytes on a ready
    client shuts the connection down, closes it and erases it. *)
Lemma end_of_stream_closes fds sock w buf w1 :
  sock ∈ fds →
  sys_recv sock BUFFER_SIZE w = (Ok (0, buf), w1) → w_errno w1 ≠ EAGAIN →
  ∃ w', service_client fds sock w = (Ok false, w') ∧
        w_trace w' = w_trace w1 ++ [CShutdown sock; CClose sock] ∧
        sock ∉ w_open w'.
Proof.
  intros Hready Hrecv Herrno.
  destruct (service_client_serviced fds sock w) as (keep & w' & E & Hs).
  assert (FD_ISSET sock fds = true) as Hset by by apply bool_decide_eq_true.
  destruct Hs as [Hr | n buf' w1' r1 w2 r2 w3 Hr Hrecv' _ _ Hsh Hcl
                     | n buf' w1' r1 w2 Hr Hrecv' Hpos Hsend
                     | n buf' w1' Hr Hrecv' _ He];
    [congruence | | |]; rewrite Hrecv in Hrecv'; simplify_eq; try lia; try done.
  exists w3. split; [done|].
  apply sys_shutdown_makes in Hsh as [T2 _].
  destruct (sys_close_ok _ _ _ _ Hcl) as (O3 & T3 & _).
  rewrite T3, T2, <-app_assoc, O3. split; [done | set_solver].
Qed.

Lemma sys_recv_zero_errno fd len w buf w1 :
  sys_recv fd len w = (Ok (0, buf), w1) →
  w_errno w1 = w_errno w ∧ w_open w1 = w_open w.
Proof. unfold sys_recv. intros H. run_unfold. by run_cases. Qed.

(** When errno holds EAGAIN from an earlier call, a read of zero bytes
    changes nothing: no shutdown(), no close(), and the client stays in
    the live set. *)
Lemma end_of_stream_kept_on_stale_errno fds sock w buf w1 :
  sock ∈ fds → w_errno w = EAGAIN →
  sys_recv sock BUFFER_SIZE w = (Ok (0, buf), w1) →
  service_client fds sock w = (Ok true, w1) ∧
  w_trace w1 = w_trace w ++ [CRecv sock BUFFER_SIZE] ∧
  w_open w1 = w_open w.
Proof.
  intros Hready Herrno Hrecv.
  destruct (sys_recv_zero_errno _ _ _ _ _ Hrecv) as [He Ho].
  destruct (sys_recv_makes _ _ _ _ _ Hrecv) as [Ht _].
  split; [|done].
  destruct (service_client_serviced fds sock w) as (keep & w' & E & Hs).
  assert (FD_ISSET sock fds = true) as Hset by by apply bool_decide_eq_true.
  destruct Hs as [Hr | n buf' w1' r1 w2 r2 w3 Hr Hrecv' _ Hne Hsh Hcl
                     | n buf' w1' r1 w2 Hr Hrecv' Hpos Hsend
                     | n buf' w1' Hr Hrecv' _ _];
    [congruence | | |]; rewrite Hrecv in Hrecv'; simplify_eq; try lia; done.
Qed.

(** A client leaves the live set only after a read that returned no
    data, with errno different from EAGAIN. *)
Lemma erased_only_after_failed_read fds sock w w' :
  service_client fds sock w = (Ok false, w') →
  sock ∈ fds ∧
  ∃ nRead buf w1, sys_recv sock BUFFER_SIZE w = (Ok (nRead, buf), w1) ∧
                  nRead ≤ 0 ∧ w_errno w1 ≠ EAGAIN.
Proof.
  intros H. apply service_client_inv in H as (keep & ? & Hs). simplify_eq.
  inversion Hs as [| nRead buf w1 r1 w2 r2 w3 Hr Hrecv Hn He Hsh Hcl | |]; subst.
  split; [|eauto 10]. unfold FD_ISSET in Hr. by apply bool_decide_eq_true in Hr.
Qed.

(** A read that would block, and a read of data whatever becomes of the
    echo, leave the client in the live set. *)
Lemma kept_after_would_block_or_data fds sock w nRead buf w1 keep w' :
  sys_recv sock BUFFER_SIZE w = (Ok (nRead, buf), w1) →
  0 < nRead ∨ w_errno w1 = EAGAIN →
  service_client fds sock w = (Ok keep, w') → keep = true.
Proof.
  intros Hrecv Hcase H. apply service_client_inv in H as (keep' & ? & Hs).
  simplify_eq. inversion Hs; subst; try done.
  rewrite Hrecv in *. simplify_eq. lia.
Qed.

(** C2, at the failing input. Client 4 is serviced first: its "x" is
    read and the echo fails with EAGAIN, which stays in errno. The read
    on client 5 then returns zero bytes, the peer having closed; the
    test [errno != EAGAIN] fails on the stale value, and the loop leaves
    5 in the live set, with no shutdown() and no close(). *)
Theorem stale_errno_keeps_closed_peer :
  ∃ w1 w2,
    service_client {[4; 5]} 4 one_stalled_one_closed = (Ok true, w1) ∧
    w_errno one_stalled_one_closed = 0 ∧
    w_errno w1 = EAGAIN ∧
    sys_recv 5 BUFFER_SIZE w1 = (Ok (0, []), w2) ∧
    service_clients {[4; 5]} [4; 5] one_stalled_one_closed = (Ok [4; 5], w2) ∧
    w_trace w2 = [CRecv 4 BUFFER_SIZE; CSend 4 (bytes_of "x"); CRecv 5 BUFFER_SIZE] ∧
    5 ∈ w_open w2.
Proof.
  exists (service_client {[4; 5]} 4 one_stalled_one_closed).2.
  exists (service_clients {[4; 5]} [4; 5] one_stalled_one_closed).2.
  split_and!; by vm_compute.
Qed.

(** ** The live set across turns of the loop *)

Lemma stalled_first_turn :
  iteration 3 [4; 5] one_stalled_one_closed =
    (Ok [4; 5],
     stalled_after [CSelect 6 {[3; 4; 5]}; CRecv 4 BUFFER_SIZE;
                    CSend 4 (bytes_of "x"); CRecv 5 BUFFER_SIZE]).
Proof. by vm_compute. Qed.

Lemma stalled_next_turn (t : list Call) :
  iteration 3 [4; 5] (stalled_after t) =
    (Ok [4; 5],
     stalled_after ((t ++ [CSelect 6 {[3; 4; 5]}]) ++ [CRecv 5 BUFFER_SIZE])).
Proof. by vm_compute. Qed.

Lemma stalled_turns (n : nat) (t : list Call) :
  omap close_fd t = [] →
  ∃ t', event_loop n 3 [4; 5] (stalled_after t) = (Ok [4; 5], stalled_after t') ∧
        omap close_fd t' = [].
Proof.
  revert t. induction n as [|n IH]; intros t Ht; simpl.
  - by exists t.
  - unfold bind. rewrite stalled_next_turn. apply IH.
    by rewrite !omap_app, Ht.
Qed.

(** C5, at the failing input. From [one_stalled_one_closed], after each
    of the turns of the loop, however many, client 5 is in the live set
    and its descriptor is open and never closed, although the first turn
    has read end of stream on it (and every later turn reads it again). *)
Theorem closed_peer_stays_live (n : nat) :
  ∃ w', event_loop (S n) 3 [4; 5] one_stalled_one_closed = (Ok [4; 5], w') ∧
        5 ∈ w_fin w' ∧ w_rx w' !!! 5 = [] ∧
        5 ∈ w_open w' ∧
        omap close_fd (w_trace w') = [] ∧
        w_errno w' = EAGAIN.
Proof.
  simpl. unfold bind. rewrite stalled_first_turn.
  destruct (stalled_turns n
    [CSelect 6 {[3; 4; 5]}; CRecv 4 BUFFER_SIZE; CSend 4 (bytes_of "x");
     CRecv 5 BUFFER_SIZE]) as (t' & E & Hclose); [done|].
  rewrite E. eexists. split; [done|]. split_and!; try done; by vm_compute.
Qed.

(** The same from a process just started: the first two turns accept
    the two connections, the second also reads "x" from 4 and fails to
    echo it; from the third turn on the end of stream on 5 is read again
    and again, and 5 is never closed. *)
Lemma whole_run_keeps_closed_peer :
  ∃ w', main 5 ["server"; "8080"] two_arriving = (Running, w') ∧
        omap read_fd (w_trace w') = [4; 5; 5; 5] ∧
        omap close_fd (w_trace w') = [] ∧
        5 ∈ w_open w' ∧ 5 ∈ w_fin w'.
Proof.
  exists (main 5 ["server"; "8080"] two_arriving).2. split_and!; by vm_compute.
Qed.

(** ** Failures of the constructor in [main] *)

(** C3, at the failing input. With a valid port and a bind() that fails
    (errno 98, address in use), the constructor closes the socket and
    rethrows a copy of static type [std::exception]; the handler of
    [main] does not match it, so the process ends in [std::terminate]:
    [main] neither writes the message "bind()" to standard error nor
    returns EXIT_FAILURE. *)
Theorem bind_failure_is_not_reported (fuel : nat) :
  ∃ w', main fuel ["server"; "8080"] (failing is_bind 98 boot) = (Terminate, w') ∧
        Server_new 8080 (failing is_bind 98 boot) = (Throw std_exception, w') ∧
        w_stderr w' = [] ∧
        w_trace w' = [CSocket; CSetsockopt 3; CFcntlGetfl 3;
                      CFcntlSetfl 3 O_NONBLOCK; CBind 3 8080; CClose 3].
Proof.
  exists (Server_new 8080 (failing is_bind 98 boot)).2.
  split_and!; by vm_compute.
Qed.

(** ** A failing switch to non-blocking mode *)

(** C8 as stated fails: with the listener ready and accept() returning
    the new descriptor 4 without error, an fcntl(F_SETFL) that fails ends
    the loop with "fcntl(F_SETFL)"; descriptor 4 is left open and no live
    set holds it. *)
Lemma nonblock_failure_drops_connection :
  let w := failing is_setfl EINVAL one_pending in
  3 ∈ ({[3]} : gset Z) ∧
  (∃ w1, sys_accept 3 w = (Ok 4, w1)) ∧
  (∃ w', service_listener 3 {[3]} [] w = (Throw (ft_exception "fcntl(F_SETFL)"), w') ∧
         4 ∈ w_open w') ∧
  ¬ (∃ cs w', service_listener 3 {[3]} [] w = (Ok cs, w')).
Proof.
  intros w. split_and!.
  - by vm_compute.
  - exists (sys_accept 3 w).2. by vm_compute.
  - exists (service_listener 3 {[3]} [] w).2. split; by vm_compute.
  - intros (cs & w' & H). vm_compute in H. discriminate H.
Qed.

(** C4 as stated fails: with client 4 and the listener 3 both ready,
    the turn echoes on 4 and then accepts the pending connection as
    descriptor 5, which is neither read nor written; the fcntl(F_SETFL)
    on 5 fails, and the loop ends with "fcntl(F_SETFL)" whatever turns
    were still to come. The only select() ever made is the one of this
    turn, on {3, 4}: descriptor 5 is open and appears in no interest
    set. *)
Lemma accepted_but_never_selected :
  let w := one_pending_no_setfl in
  ∃ w',
    (∀ fuel, event_loop (S fuel) 3 [4] w
             = (Throw (ft_exception "fcntl(F_SETFL)"), w')) ∧
    w_trace w' =
      [CSelect 5 {[3; 4]}; CRecv 4 BUFFER_SIZE; CSend 4 (bytes_of "ping");
       CAccept 3; CFcntlGetfl 5; CFcntlSetfl 5 O_NONBLOCK] ∧
    (5 ∉ w_open w) ∧ 5 ∈ w_open w' ∧
    w_net w ≠ [] ∧ w_net w' = [] ∧
    omap select_set (w_trace w') = [{[3; 4]}] ∧
    ∀ fds, fds ∈ omap select_set (w_trace w') → 5 ∉ fds.
Proof.
  intros w. exists (iteration 3 [4] w).2.
  assert (omap select_set (w_trace (iteration 3 [4] w).2) = [{[3; 4]}]) as Hsel
    by by vm_compute.
  split_and!; try by vm_compute.
  intros fds Hin. rewrite Hsel in Hin.
  apply list_elem_of_singleton in Hin as ->. set_solver.
Qed.

(** ** The theorems at concrete inputs *)

Lemma IntSet_wf_4_5 : IntSet.wf [4; 5].
Proof. repeat constructor. Defined.

Lemma echo_correct_witness :
  ∃ cs w', service_clients {[4; 5]} [4; 5] two_talking = (Ok cs, w') ∧
    w_tx w' !!! 5 = w_tx two_talking !!! 5 ++ bytes_of "ping" ∧
    w_rx w' !!! 5 = [] ∧
    (bytes_of "ping" ≠ [] → 5 ∈ cs ∧
       ∃ t1 t2, w_trace w' =
                w_trace two_talking ++ t1 ++
                [CRecv 5 BUFFER_SIZE; CSend 5 (bytes_of "ping")] ++ t2).
Proof.
  apply (echo_correct {[4; 5]} [4; 5] 5 (bytes_of "ping") two_talking).
  - exact IntSet_wf_4_5.
  - repeat constructor.
  - by vm_compute.
  - by vm_compute.
  - reflexivity.
  - by vm_compute.
  - reflexivity.
  - reflexivity.
  - vm_compute. lia.
Defined.

Lemma maxSocketId_spec_witness :
  maxSocketId 3 [4; 5] = 5 ∧
  (∀ w r w', iteration 3 [4; 5] w = (r, w') →
     ∃ nfds fds t, w_trace w' = w_trace w ++ CSelect nfds fds :: t ∧
                   nfds = maxSocketId 3 [4; 5] + 1 ∧
                   (∀ x, x ∈ fds ↔ x = 3 ∨ x ∈ [4; 5]) ∧
                   (∀ x, x ∈ fds → x < nfds)).
Proof.
  split; [reflexivity|].
  apply (maxSocketId_spec 3 [4; 5]). exact IntSet_wf_4_5.
Defined.

Lemma iteration_order_witness :
  let w := one_talking_one_pending in
  let w0 := log (CSelect 5 {[3; 4]}) w in
  let w' := (iteration 3 [4] w).2 in
  IntSet.wf [4] ∧
  sys_select (maxSocketId 3 [4] + 1) (interest 3 [4]) w = (Ok {[3; 4]}, w0) ∧
  iteration 3 [4] w = (Ok [4; 5], w') ∧
  ∃ cs1 w1 t1 t2,
    service_clients {[3; 4]} [4] w0 = (Ok cs1, w1) ∧
    service_listener 3 {[3; 4]} cs1 w1 = (Ok [4; 5], w') ∧
    w_trace w1 = w_trace w0 ++ t1 ∧
    w_trace w' = w_trace w0 ++ t1 ++ t2 ∧
    omap read_fd t1 = filter (λ fd, fd ∈ ({[3; 4]} : gset Z)) [4] ∧
    StronglySorted Z.lt (omap read_fd t1) ∧
    Forall (λ c, is_accept c = false) t1 ∧
    Forall (λ c, is_io c = false) t2 ∧
    (3 ∉ ({[3; 4]} : gset Z) → t2 = [] ∧ Ok [4; 5] = Ok cs1) ∧
    (3 ∈ ({[3; 4]} : gset Z) →
       ∃ sock w2,
         sys_accept 3 w1 = (Ok sock, w2) ∧
         (∃ t, t2 = CAccept 3 :: t) ∧
         (sock = -1 → Ok [4; 5] = Throw (ft_exception "accept()")) ∧
         (sock ≠ -1 →
            ∃ flags w3 r2,
              sys_fcntl_getfl sock w2 = (Ok flags, w3) ∧
              sys_fcntl_setfl sock (Z.lor flags O_NONBLOCK) w3 = (Ok r2, w') ∧
              t2 = [CAccept 3; CFcntlGetfl sock;
                    CFcntlSetfl sock (Z.lor flags O_NONBLOCK)] ∧
              (r2 ≠ -1 →
                 Ok [4; 5] = Ok (IntSet.insert sock cs1) ∧
                 sock ∈ IntSet.insert sock cs1 ∧
                 (∀ fuel, event_loop (S fuel) 3 [4] w
                          = event_loop fuel 3 (IntSet.insert sock cs1) w') ∧
                 ∀ r' w'', iteration 3 (IntSet.insert sock cs1) w' = (r', w'') →
                   ∃ nfds fds' t,
                     w_trace w'' = w_trace w' ++ CSelect nfds fds' :: t ∧
                     sock ∈ fds' ∧ sock < nfds) ∧
              (r2 = -1 →
                 Ok [4; 5] = Throw (ft_exception "fcntl(F_SETFL)") ∧
                 ∀ fuel, event_loop (S fuel) 3 [4] w
                         = (Throw (ft_exception "fcntl(F_SETFL)"), w')))).
Proof.
  intros w w0 w'.
  split; [repeat constructor|]. split; [by vm_compute|].
  split; [by vm_compute|].
  apply (iteration_order 3 [4] w {[3; 4]} w0 (Ok [4; 5]) w').
  - repeat constructor.
  - by vm_compute.
  - by vm_compute.
Defined.

Lemma listener_ready_witness :
  let w := log (CSelect 4 {[3]}) one_pending in
  3 ∈ ({[3]} : gset Z) ∧
  turn_of 3 [] one_pending {[3]} [] w ∧
  ∃ sock w1 r w',
    sys_accept 3 w = (Ok sock, w1) ∧
    service_listener 3 {[3]} [] w = (r, w') ∧
    (∀ clients wpre, turn_of 3 clients wpre {[3]} [] w →
       iteration 3 clients wpre = (r, w')) ∧
    (sock = -1 →
       r = Throw (ft_exception "accept()") ∧ w' = w1 ∧
       ∀ clients wpre fuel, turn_of 3 clients wpre {[3]} [] w →
         event_loop (S fuel) 3 clients wpre
           = (Throw (ft_exception "accept()"), w')) ∧
    (sock ≠ -1 →
       (∃ c, w_net w = c :: w_net w') ∧
       ∃ flags w2 r2,
         sys_fcntl_getfl sock w1 = (Ok flags, w2) ∧
         sys_fcntl_setfl sock (Z.lor flags O_NONBLOCK) w2 = (Ok r2, w') ∧
         w_trace w' =
           w_trace w ++ [CAccept 3; CFcntlGetfl sock;
                         CFcntlSetfl sock (Z.lor flags O_NONBLOCK)] ∧
         (r2 = -1 →
            r = Throw (ft_exception "fcntl(F_SETFL)") ∧
            ∀ clients wpre fuel, turn_of 3 clients wpre {[3]} [] w →
              event_loop (S fuel) 3 clients wpre
                = (Throw (ft_exception "fcntl(F_SETFL)"), w')) ∧
         (r2 ≠ -1 →
            r = Ok (IntSet.insert sock []) ∧
            w_flags w' !!! sock = Z.lor flags O_NONBLOCK ∧
            Z.testbit (w_flags w' !!! sock) 11 = true ∧
            ∀ clients wpre fuel, turn_of 3 clients wpre {[3]} [] w →
              event_loop (S fuel) 3 clients wpre
                = event_loop fuel 3 (IntSet.insert sock []) w')).
Proof.
  intros w.
  split; [by vm_compute|].
  split; [exists w; split; by vm_compute|].
  apply (listener_ready 3 {[3]} [] w). by vm_compute.
Defined.

Lemma constructor_releases_witness :
  let w := failing is_bind 98 boot in
  let w1 := (sys_socket w).2 in
  let w' := (ServerSocket_new 8080 w).2 in
  (∃ e0 w2, ServerSocket_configure 3 8080 w1 = (Throw e0, w2) ∧
     (e0 = ft_exception "setsockopt()" ∨ e0 = ft_exception "fcntl(F_SETFL)" ∨
      e0 = ft_exception "bind()") ∧
     w_trace w' = w_trace w2 ++ [CClose 3]) ∧
  (3 ∈ w_open w1) ∧
  (3 ∉ w_open w') ∧
  w_open w' = w_open w.
Proof.
  intros w w1 w'.
  apply (constructor_releases 8080 w 3 w1 std_exception w').
  - lia.
  - by vm_compute.
  - lia.
  - by vm_compute.
Defined.

Lemma usage_exit_witness :
  ∃ w', main 0 ["server"] boot = (Exit EXIT_SUCCESS, w') ∧
        EXIT_SUCCESS = 0 ∧
        w_stderr w' = w_stderr boot ++ ["Usage: port"] ∧
        w_trace w' = w_trace boot ∧
        w_open w' = w_open boot.
Proof.
  apply (usage_exit 0 ["server"] boot). simpl. lia.
Defined.

(** ** The failures that [main] does report, and the one more it does not *)

Lemma invalid_port_is_reported (fuel : nat) :
  ∃ w', main fuel ["server"; "70000"] boot = (Exit EXIT_FAILURE, w') ∧
        w_stderr w' = ["Invalid port"] ∧ w_trace w' = [].
Proof. exists (main fuel ["server"; "70000"] boot).2. split_and!; by vm_compute. Qed.

Lemma socket_failure_is_reported (fuel : nat) :
  ∃ w', main fuel ["server"; "8080"] (failing is_socket 24 boot)
          = (Exit EXIT_FAILURE, w') ∧
        w_stderr w' = ["socket()"].
Proof.
  exists (main fuel ["server"; "8080"] (failing is_socket 24 boot)).2.
  split_and!; by vm_compute.
Qed.

Lemma listen_failure_is_reported (fuel : nat) :
  ∃ w', main fuel ["server"; "8080"] (failing is_listen 98 boot)
          = (Exit EXIT_FAILURE, w') ∧
        w_stderr w' = ["listen()"] ∧ 3 ∉ w_open w'.
Proof.
  exists (main fuel ["server"; "8080"] (failing is_listen 98 boot)).2.
  split_and!; by vm_compute.
Qed.

Lemma accept_failure_is_reported (fuel : nat) :
  let w := set_net (λ _, [mkConn [] false 0]) (failing is_accept 24 boot) in
  ∃ w', main (S fuel) ["server"; "8080"] w = (Exit EXIT_FAILURE, w') ∧
        w_stderr w' = ["accept()"].
Proof.
  intros w. exists (main (S fuel) ["server"; "8080"] w).2.
  split_and!; by vm_compute.
Qed.

Lemma setsockopt_failure_is_not_reported (fuel : nat) :
  ∃ w', main fuel ["server"; "8080"] (failing is_setsockopt 92 boot)
          = (Terminate, w') ∧
        w_stderr w' = [] ∧ 3 ∉ w_open w'.
Proof.
  exists (main fuel ["server"; "8080"] (failing is_setsockopt 92 boot)).2.
  split_and!; by vm_compute.
Qed.

(** * Further properties of the code *)

(** ** What one turn moves on a connection *)

Lemma sys_recv_spec fd len w n buf w1 :
  sys_recv fd len w = (Ok (n, buf), w1) →
  w_tx w1 = w_tx w ∧ w_room w1 = w_room w ∧ w_open w1 = w_open w ∧
  w_fault w1 = w_fault w ∧
  (0 < n → buf = take (Z.to_nat len) (w_rx w !!! fd) ∧
           n = Z.of_nat (length buf) ∧
           w_rx w1 !!! fd = drop (Z.to_nat len) (w_rx w !!! fd) ∧
           fd ∈ w_open w ∧ w_fault w (CRecv fd len) = None) ∧
  (n ≤ 0 → w_rx w1 = w_rx w).
Proof.
  unfold sys_recv. intros H. run_unfold. simpl in H.
  destruct (w_fault w (CRecv fd len)) eqn:Hf; simplify_eq/=.
  { split_and!; try done; lia. }
  destruct (decide (fd ∈ w_open w)); simplify_eq/=.
  2:{ split_and!; try done; lia. }
  destruct (w_rx w !!! fd) as [|b q] eqn:Hrx.
  - destruct (decide (fd ∈ w_fin w)); simplify_eq/=; split_and!; try done; lia.
  - simplify_eq/=. split_and!; try done.
    + intros _. by rewrite lookup_total_insert_eq.
    + destruct (Z.to_nat len); simpl; [intros _|lia].
      apply insert_id. rewrite lookup_total_alt in Hrx.
      destruct (w_rx w !! fd); simpl in Hrx; by simplify_eq.
Qed.

Lemma sys_send_spec fd data w r w' :
  sys_send fd data w = (r, w') →
  w_rx w' = w_rx w ∧ w_open w' = w_open w ∧ w_fault w' = w_fault w ∧
  ∃ d, d `prefix_of` data ∧ w_tx w' !!! fd = w_tx w !!! fd ++ d ∧
       (fd ∈ w_open w → w_fault w (CSend fd data) = None →
        d = take (w_room w !!! fd) data).
Proof.
  unfold sys_send. intros H. run_unfold. simpl in H.
  destruct (w_fault w (CSend fd data)) eqn:Hf; simplify_eq/=.
  { split_and!; try done. exists []. rewrite app_nil_r.
    split_and!; [apply prefix_nil | done | done]. }
  destruct (decide (fd ∈ w_open w)); simplify_eq/=.
  2:{ split_and!; try done. exists []. rewrite app_nil_r.
      split_and!; [apply prefix_nil | done | done]. }
  destruct (w_room w !!! fd) as [|room] eqn:Hroom.
  - destruct data as [|b data]; simplify_eq/=.
    + split_and!; try done. exists [].
      rewrite lookup_total_insert_eq. done.
    + split_and!; try done. exists []. rewrite app_nil_r.
      split_and!; [apply prefix_nil | done | done].
  - simplify_eq/=. split_and!; try done.
    exists (take (S room) data). rewrite lookup_total_insert_eq.
    split_and!; [apply prefix_take | done | done].
Qed.

Lemma sys_shutdown_spec fd w r w' :
  sys_shutdown fd w = (r, w') →
  w_open w' = w_open w ∧ w_fault w' = w_fault w.
Proof. unfold sys_shutdown. intros H. run_unfold. by run_cases. Qed.

(** The turn of [sock] inside the loop: the connection [sock] is as it
    was until its turn, and as its turn left it afterwards. *)
Lemma service_clients_focus fds clients sock w cs w' :
  IntSet.wf clients → sock ∈ clients →
  service_clients fds clients w = (Ok cs, w') →
  ∃ w1 keep w2,
    same_conn sock w w1 ∧ serviced fds sock w1 keep w2 ∧ same_conn sock w2 w' ∧
    (sock ∈ cs ↔ keep = true).
Proof.
  revert w cs w'. induction clients as [|c clients IH]; intros w cs w' Hwf Hin H.
  { by apply elem_of_nil in Hin. }
  apply StronglySorted_cons in Hwf as [Hlt Hwf].
  apply service_clients_cons in H as (keep & w1 & rest & Hs & Hrest & ?).
  simplify_eq.
  destruct (decide (c = sock)) as [->|Hne].
  - assert (sock ∉ clients) as Hnotin.
    { intros Hin'. rewrite Forall_forall in Hlt. specialize (Hlt _ Hin'). lia. }
    exists w, keep, w1. split_and!; [apply same_conn_refl | done | |].
    + by eapply service_clients_other.
    + assert (sock ∉ rest) as Hrest'.
      { intros Hr. apply Hnotin. eapply sublist_subseteq; [|exact Hr].
        by eapply service_clients_sublist. }
      destruct keep; [split; [done | intros _; apply list_elem_of_here]|].
      split; [done | discriminate].
  - apply elem_of_cons in Hin as [->|Hin]; [done|].
    destruct (IH _ _ _ Hwf Hin Hrest) as (w2 & keep' & w3 & S1 & Hs' & S2 & Hk).
    exists w2, keep', w3. split_and!; [|done|done|].
    + eapply same_conn_trans; [by eapply serviced_other | done].
    + rewrite <-Hk. destruct keep; [|done].
      rewrite elem_of_cons. split; [intros [?|?]; done | by right].
Qed.

(** What a turn does with the bytes of a connection, whatever the
    system answers. *)
Lemma serviced_bytes fds sock w keep w' :
  serviced fds sock w keep w' →
  ∃ d, d `prefix_of` take (Z.to_nat BUFFER_SIZE) (w_rx w !!! sock) ∧
       w_tx w' !!! sock = w_tx w !!! sock ++ d ∧
       (d ≠ [] → sock ∈ fds).
Proof.
  intros [Hr | n buf w1 r1 w2 r2 w3 Hr Hrecv Hn _ Hsh Hcl
             | n buf w1 r1 w2 Hr Hrecv Hpos Hsend
             | n buf w1 Hr Hrecv Hn _].
  - exists []. rewrite app_nil_r. split_and!; [apply prefix_nil | done | done].
  - apply sys_recv_spec in Hrecv as (T1 & _).
    apply sys_shutdown_data in Hsh as [T2 _]. apply sys_close_data in Hcl as [T3 _].
    exists []. rewrite app_nil_r, T3, T2, T1.
    split_and!; [apply prefix_nil | done | done].
  - apply sys_recv_spec in Hrecv as (T1 & _ & _ & _ & Hdata & _).
    destruct (Hdata Hpos) as (-> & -> & _).
    apply sys_send_spec in Hsend as (_ & _ & _ & d & Hd & T2 & _).
    rewrite Nat2Z.id, firstn_all in Hd.
    exists d. rewrite T2, T1. split_and!; [done | done |].
    intros _. unfold FD_ISSET in Hr. by apply bool_decide_eq_true in Hr.
  - apply sys_recv_spec in Hrecv as (T1 & _).
    exists []. rewrite app_nil_r, T1.
    split_and!; [apply prefix_nil | done | done].
Qed.

(** X1. In one run of the client loop over a live set without
    repetition, what is written to any descriptor is a prefix of the
    first [BUFFER_SIZE] bytes that were pending on that same descriptor,
    and nothing at all unless the descriptor is a ready client: bytes of
    one connection never reach another, whatever calls fail. *)
Theorem echo_is_own_prefix (fds : gset Z) (clients : list Z) (w : World)
    (cs : list Z) (w' : World) (x : Z) :
  IntSet.wf clients →
  service_clients fds clients w = (Ok cs, w') →
  ∃ d, d `prefix_of` take (Z.to_nat BUFFER_SIZE) (w_rx w !!! x) ∧
       w_tx w' !!! x = w_tx w !!! x ++ d ∧
       (d ≠ [] → x ∈ fds ∧ x ∈ clients).
Proof.
  intros Hwf H. destruct (decide (x ∈ clients)) as [Hin|Hnotin].
  - destruct (service_clients_focus _ _ _ _ _ _ Hwf Hin H)
      as (w1 & keep & w2 & (R1 & T1 & _) & Hs & (_ & T2 & _) & _).
    destruct (serviced_bytes _ _ _ _ _ Hs) as (d & Hd & Htx & Hready).
    exists d. rewrite T2, Htx, T1, <-R1. split_and!; [done | done |].
    intros Hne. split; [by apply Hready | done].
  - destruct (service_clients_other _ _ _ _ _ _ Hnotin H) as (_ & T & _).
    exists []. rewrite app_nil_r. split_and!; [apply prefix_nil | done | done].
Qed.

Lemma sys_recv_chunk fd w :
  fd ∈ w_open w → w_fault w (CRecv fd BUFFER_SIZE) = None → w_rx w !!! fd ≠ [] →
  ∃ n w1, sys_recv fd BUFFER_SIZE w =
            (Ok (n, take (Z.to_nat BUFFER_SIZE) (w_rx w !!! fd)), w1) ∧ 0 < n.
Proof.
  intros Hopen Hfault Hne. unfold sys_recv, syscall, on_fd. simpl.
  rewrite Hfault. rewrite decide_True by done.
  destruct (w_rx w !!! fd) as [|b q] eqn:E; [done|].
  eexists _, _. split; [reflexivity|].
  destruct (Z.to_nat BUFFER_SIZE) eqn:Hlen; [unfold BUFFER_SIZE in Hlen; lia|].
  simpl. lia.
Qed.

(** X2. A ready client with bytes pending, whose read does not fail, is
    read once per run of the client loop: the first [BUFFER_SIZE] pending
    bytes leave the queue, the later ones stay for the next turn, and of
    the bytes read as many are echoed as the send buffer has room for.
    The rest of the bytes read is neither echoed nor kept: a short write
    loses them. The client stays in the live set. *)
Theorem turn_reads_one_chunk (fds : gset Z) (clients : list Z) (sock : Z)
    (w : World) (cs : list Z) (w' : World) :
  IntSet.wf clients → sock ∈ clients → sock ∈ fds →
  sock ∈ w_open w → w_rx w !!! sock ≠ [] →
  w_fault w (CRecv sock BUFFER_SIZE) = None →
  w_fault w (CSend sock (take (Z.to_nat BUFFER_SIZE) (w_rx w !!! sock))) = None →
  service_clients fds clients w = (Ok cs, w') →
  w_rx w' !!! sock = drop (Z.to_nat BUFFER_SIZE) (w_rx w !!! sock) ∧
  w_tx w' !!! sock =
    w_tx w !!! sock ++
    take (w_room w !!! sock) (take (Z.to_nat BUFFER_SIZE) (w_rx w !!! sock)) ∧
  sock ∈ cs.
Proof.
  intros Hwf Hin Hready Hopen Hne Hfr Hfs H.
  destruct (service_clients_focus _ _ _ _ _ _ Hwf Hin H)
    as (w1 & keep & w2 & (R1 & T1 & Ro1 & O1 & _ & F1) & Hs
        & (R2 & T2 & _) & Hk).
  destruct (sys_recv_chunk sock w1) as (n & w1' & Hrecv & Hpos);
    [by apply O1 | by rewrite F1 | by rewrite R1 |].
  assert (keep = true ∧
          w_rx w2 !!! sock = drop (Z.to_nat BUFFER_SIZE) (w_rx w1 !!! sock) ∧
          w_tx w2 !!! sock =
            w_tx w1 !!! sock ++
            take (w_room w1 !!! sock) (take (Z.to_nat BUFFER_SIZE) (w_rx w1 !!! sock)))
    as (-> & Hrx & Htx).
  { destruct Hs as [Hr | n' buf w3 r1 w4 r2 w5 Hr Hrecv' Hn _ Hsh Hcl
                       | n' buf w3 r1 w4 Hr Hrecv' Hpos' Hsend
                       | n' buf w3 Hr Hrecv' Hn _].
    - unfold FD_ISSET in Hr. by apply bool_decide_eq_false in Hr.
    - rewrite Hrecv in Hrecv'. simplify_eq. lia.
    - rewrite Hrecv in Hrecv'. simplify_eq.
      apply sys_recv_spec in Hrecv as (Tr & Ror & Or & Fr & Hdata & _).
      destruct (Hdata Hpos) as (_ & Hn & Hrx & _).
      apply sys_send_spec in Hsend as (Rs & _ & _ & d & _ & Ts & Hd).
      rewrite Hn, Nat2Z.id, firstn_all in Hd.
      rewrite Hd in Ts; [| by rewrite Or; apply O1 | by rewrite Fr, F1, R1].
      rewrite Rs, Hrx, Ts, Tr, Ror. done.
    - rewrite Hrecv in Hrecv'. simplify_eq. lia. }
  split_and!.
  - by rewrite R2, Hrx, R1.
  - by rewrite T2, Htx, T1, Ro1, R1.
  - by apply Hk.
Qed.


(** ** Descriptors across the loop *)

Lemma serviced_open fds sock w keep w' :
  serviced fds sock w keep w' →
  w_open w' = (if keep then w_open w else w_open w ∖ {[sock]}).
Proof.
  intros [Hr | n buf w1 r1 w2 r2 w3 Hr Hrecv Hn _ Hsh Hcl
             | n buf w1 r1 w2 Hr Hrecv Hpos Hsend
             | n buf w1 Hr Hrecv Hn _].
  - done.
  - apply sys_recv_spec in Hrecv as (_ & _ & O1 & _).
    apply sys_shutdown_spec in Hsh as [O2 _].
    apply sys_close_ok in Hcl as (O3 & _). by rewrite O3, O2, O1.
  - apply sys_recv_spec in Hrecv as (_ & _ & O1 & _).
    apply sys_send_spec in Hsend as (_ & O2 & _). by rewrite O2, O1.
  - by apply sys_recv_spec in Hrecv as (_ & _ & O1 & _).
Qed.

Lemma service_clients_open fds clients w cs w' :
  IntSet.wf clients →
  service_clients fds clients w = (Ok cs, w') →
  ∀ x, x ∈ w_open w' ↔ x ∈ w_open w ∧ (x ∈ clients → x ∈ cs).
Proof.
  revert w cs w'. induction clients as [|c clients IH]; intros w cs w' Hwf H x.
  { simpl in H. unfold ret in H. simplify_eq. rewrite elem_of_nil. tauto. }
  apply StronglySorted_cons in Hwf as [Hlt Hwf].
  apply service_clients_cons in H as (keep & w1 & rest & Hs & Hrest & ?).
  simplify_eq.
  assert (c ∉ clients) as Hc.
  { intros Hin. rewrite Forall_forall in Hlt. specialize (Hlt _ Hin). lia. }
  assert (c ∉ rest) as Hc'.
  { intros Hr. apply Hc. eapply sublist_subseteq; [|exact Hr].
    by eapply service_clients_sublist. }
  rewrite (IH _ _ _ Hwf Hrest x), (serviced_open _ _ _ _ _ Hs).
  destruct keep.
  - rewrite !elem_of_cons. split.
    + intros [Ho Hr]. split; [done|]. intros [->|Hin]; [by left | right; by apply Hr].
    + intros [Ho Hr]. split; [done|]. intros Hin.
      destruct (Hr (or_intror Hin)) as [->|?]; done.
  - rewrite elem_of_difference, elem_of_singleton, elem_of_cons. split.
    + intros [[Ho Hne] Hr]. split; [done|]. intros [->|Hin]; [done | by apply Hr].
    + intros [Ho Hr]. split; [split; [done|] | intros Hin; apply Hr; by right].
      intros ->. apply Hc', Hr. by left.
Qed.

(** X3. After a run of the client loop over a live set without
    repetition, the open descriptors are those that were open before
    less the clients that the loop erased: every erased client has been
    closed, and no other descriptor has been closed or opened. *)
Theorem erased_are_closed (fds : gset Z) (clients : list Z) (w : World)
    (cs : list Z) (w' : World) :
  IntSet.wf clients →
  service_clients fds clients w = (Ok cs, w') →
  (∀ x, x ∈ clients → x ∉ cs → x ∉ w_open w') ∧
  (∀ x, x ∈ cs ∨ x ∉ clients → (x ∈ w_open w' ↔ x ∈ w_open w)).
Proof.
  intros Hwf H. pose proof (service_clients_open _ _ _ _ _ Hwf H) as Ho.
  split.
  - intros x Hin Hout Hopen. apply Ho in Hopen as [_ Hk]. by apply Hout, Hk.
  - intros x Hx. rewrite Ho. split; [by intros [? _]|].
    intros Hopen. split; [done|]. intros Hin. by destruct Hx.
Qed.

Lemma sys_select_open nfds fds w r w' :
  sys_select nfds fds w = (r, w') → w_open w' = w_open w.
Proof. unfold sys_select. intros H. run_unfold. by run_cases. Qed.

Lemma sys_fcntl_open fd w r w' flags r' w'' :
  sys_fcntl_getfl fd w = (r, w') → sys_fcntl_setfl fd flags w' = (r', w'') →
  w_open w'' = w_open w.
Proof.
  unfold sys_fcntl_getfl, sys_fcntl_setfl. intros H1 H2. run_unfold.
  by run_cases.
Qed.

Lemma sys_accept_fresh fd w sock w' :
  sys_accept fd w = (Ok sock, w') → sock ≠ -1 →
  (sock ∉ w_open w) ∧ w_open w' = {[sock]} ∪ w_open w.
Proof.
  unfold sys_accept. intros H Hs. run_unfold. run_cases.
  split; [apply fresh_fd_fresh | done].
Qed.

Lemma IntSet_insert_new (x : Z) (s : list Z) :
  x ∉ s → length (IntSet.insert x s) = S (length s).
Proof.
  induction s as [|y s IH]; intros Hx; simpl; [done|].
  apply not_elem_of_cons in Hx as [Hne Hx].
  destruct (Z.ltb_spec x y); [done|].
  destruct (Z.eqb_spec x y); [done|]. simpl. by rewrite IH.
Qed.

Lemma listened_live_open lfd fds cs w r w' :
  live_open lfd cs w → listened lfd fds cs w r w' →
  (lfd ∈ w_open w') ∧
  ∀ cs', r = Ok cs' →
    live_open lfd cs' w' ∧
    (lfd ∉ fds → cs' = cs) ∧
    (lfd ∈ fds → ∃ sock, (sock ∉ cs) ∧ (sock ∉ w_open w) ∧ (sock ∈ w_open w') ∧
                         cs' = IntSet.insert sock cs ∧
                         length cs' = S (length cs)).
Proof.
  intros (Hwf & Hopen & Hl & Hnl) Hlis. unfold FD_ISSET in Hlis.
  destruct Hlis as [Hr | w1 Hr Hacc
                   | sock w1 flags w2 w3 Hr Hacc Hs Hget Hset
                   | sock w1 flags w2 r' w3 Hr Hacc Hs Hget Hset Hr'].
  - apply bool_decide_eq_false in Hr. split; [done|]. intros cs' ?. simplify_eq.
    split_and!; [by split_and! | done | by intros ?].
  - split; [|done]. clear -Hacc Hl. unfold sys_accept in Hacc. run_unfold.
    run_cases; set_solver.
  - split; [|done]. destruct (sys_accept_fresh _ _ _ _ Hacc Hs) as [_ O1].
    rewrite (sys_fcntl_open _ _ _ _ _ _ _ Hget Hset), O1. set_solver.
  - apply bool_decide_eq_true in Hr.
    destruct (sys_accept_fresh _ _ _ _ Hacc Hs) as [Hfresh O1].
    pose proof (sys_fcntl_open _ _ _ _ _ _ _ Hget Hset) as O3.
    assert (sock ∉ cs) as Hnew by (intros Hin; by apply Hfresh, Hopen).
    split; [rewrite O3, O1; set_solver|]. intros cs' ?. simplify_eq.
    split_and!.
    + split_and!.
      * by apply IntSet_insert_wf.
      * intros x Hx. rewrite O3, O1.
        apply IntSet_elem_of_insert in Hx as [->|Hx]; [set_solver|].
        apply elem_of_union_r. by apply Hopen.
      * rewrite O3, O1. set_solver.
      * intros Hin. apply IntSet_elem_of_insert in Hin as [->|Hin]; done.
    + done.
    + intros _. exists sock. split_and!; try done.
      * rewrite O3, O1. set_solver.
      * by apply IntSet_insert_new.
Qed.

Lemma service_clients_live_open lfd fds cs w cs1 w1 :
  live_open lfd cs w → service_clients fds cs w = (Ok cs1, w1) →
  live_open lfd cs1 w1.
Proof.
  intros (Hwf & Hopen & Hl & Hnl) H.
  pose proof (service_clients_open _ _ _ _ _ Hwf H) as Ho.
  pose proof (service_clients_sublist _ _ _ _ _ H) as Hsub.
  split_and!.
  - by eapply IntSet_wf_sublist.
  - intros x Hx. apply Ho. split; [|done].
    apply Hopen. by eapply sublist_subseteq.
  - apply Ho. split; [done|]. intros Hin. done.
  - intros Hin. apply Hnl. by eapply sublist_subseteq.
Qed.

(** The ways through one turn of the loop. *)
Lemma iteration_inv lfd cs w r w' :
  iteration lfd cs w = (r, w') →
  (r = Block ∧
   sys_select (maxSocketId lfd cs + 1) (interest lfd cs) w = (Block, w'))
  ∨ (∃ fds w0 cs1 w1,
       sys_select (maxSocketId lfd cs + 1) (interest lfd cs) w = (Ok fds, w0) ∧
       service_clients fds cs w0 = (Ok cs1, w1) ∧
       listened lfd fds cs1 w1 r w').
Proof.
  unfold iteration. intros H. unfold bind at 1 in H.
  destruct (sys_select _ _ w) as [[fds|e|] w0] eqn:Hsel.
  - right. unfold bind at 1 in H.
    destruct (service_clients_returns fds cs w0) as (cs1 & w1 & E1).
    rewrite E1 in H. apply service_listener_inv in H. eauto 10.
  - exfalso. clear -Hsel. unfold sys_select in Hsel. run_unfold. by run_cases.
  - left. by simplify_eq.
Qed.

Lemma iteration_live_open lfd cs w r w' :
  live_open lfd cs w → iteration lfd cs w = (r, w') →
  (lfd ∈ w_open w') ∧ (∀ cs', r = Ok cs' → live_open lfd cs' w').
Proof.
  intros Hinv H.
  apply iteration_inv in H as [[-> Hsel] | (fds & w0 & cs1 & w1 & Hsel & Hcl & Hlis)].
  - apply sys_select_open in Hsel. rewrite Hsel.
    split; [by destruct Hinv as (_ & _ & ? & _) | done].
  - apply sys_select_open in Hsel.
    assert (live_open lfd cs w0) as Hinv0.
    { destruct Hinv as (? & ? & ? & ?). split_and!; rewrite ?Hsel; try done;
        intros x Hx; rewrite Hsel; auto. }
    pose proof (service_clients_live_open _ _ _ _ _ _ Hinv0 Hcl) as Hinv1.
    destruct (listened_live_open _ _ _ _ _ _ Hinv1 Hlis) as [Hl Hok].
    split; [done|]. intros cs' ->. by destruct (Hok _ eq_refl).
Qed.

(** X4. The loop keeps its live set in order: if, before a turn, the
    live set is ascending without repetition, all its descriptors are
    open, and the listening descriptor is open and not in it, then the
    same holds after any number of turns; and however the loop ends, it
    has not closed the listening descriptor. *)
Theorem live_set_invariant (fuel : nat) (lfd : Z) (clients : list Z) (w : World)
    (r : Res (list Z)) (w' : World) :
  live_open lfd clients w →
  event_loop fuel lfd clients w = (r, w') →
  (lfd ∈ w_open w') ∧ (∀ cs', r = Ok cs' → live_open lfd cs' w').
Proof.
  revert clients w. induction fuel as [|fuel IH]; intros clients w Hinv H; simpl in H.
  - unfold ret in H. simplify_eq.
    split; [by destruct Hinv as (_ & _ & ? & _)|]. intros cs' ?. by simplify_eq.
  - unfold bind in H. destruct (iteration lfd clients w) as [[cs1|e|] w1] eqn:Hit.
    + destruct (iteration_live_open _ _ _ _ _ Hinv Hit) as [_ Hok].
      eapply IH; [by apply Hok | done].
    + simplify_eq. destruct (iteration_live_open _ _ _ _ _ Hinv Hit) as [Hl _].
      done.
    + simplify_eq. destruct (iteration_live_open _ _ _ _ _ Hinv Hit) as [Hl _].
      done.
Qed.

(** X5. With the live set in order as in X4, a connection accepted when
    the listener is ready comes on a descriptor that was not open and is
    not yet in the live set: the insertion is never the silent no-op of
    [std::set::insert], and the live set grows by exactly one. *)
Theorem accept_grows_live_set (lfd : Z) (fds : gset Z) (clients : list Z)
    (w : World) (cs' : list Z) (w' : World) :
  live_open lfd clients w → lfd ∈ fds →
  service_listener lfd fds clients w = (Ok cs', w') →
  ∃ sock, (sock ∉ clients) ∧ (sock ∉ w_open w) ∧ (sock ∈ w_open w') ∧
          cs' = IntSet.insert sock clients ∧
          length cs' = S (length clients).
Proof.
  intros Hinv Hready H. apply service_listener_inv in H.
  destruct (listened_live_open _ _ _ _ _ _ Hinv H) as [_ Hok].
  destruct (Hok _ eq_refl) as (_ & _ & Hnew). by apply Hnew.
Qed.

(** ** [setFdNonblock] *)

Lemma O_NONBLOCK_other_bits (flags i : Z) :
  i ≠ 11 → Z.testbit (Z.lor flags O_NONBLOCK) i = Z.testbit flags i.
Proof.
  intros Hi. rewrite Z.lor_spec. change O_NONBLOCK with (2 ^ 11).
  destruct (Z.neg_nonneg_cases i) as [Hneg|Hpos].
  - by rewrite !Z.testbit_neg_r by lia.
  - rewrite Z.pow2_bits_false by lia. apply orb_false_r.
Qed.

(** X6. On an open descriptor, when both fcntl() calls succeed,
    [setFdNonblock] returns without throwing, sets the O_NONBLOCK bit of
    the file status flags of [fd] and leaves every other bit and every
    other descriptor's flags as they were; doing it again changes
    nothing. *)
Theorem setFdNonblock_sets_one_bit (fd : Z) (w : World) :
  fd ∈ w_open w →
  w_fault w (CFcntlGetfl fd) = None →
  w_fault w (CFcntlSetfl fd (Z.lor (w_flags w !!! fd) O_NONBLOCK)) = None →
  ∃ w', setFdNonblock fd w = (Ok tt, w') ∧
        Z.testbit (w_flags w' !!! fd) 11 = true ∧
        (∀ i, i ≠ 11 → Z.testbit (w_flags w' !!! fd) i
                        = Z.testbit (w_flags w !!! fd) i) ∧
        (∀ x, x ≠ fd → w_flags w' !!! x = w_flags w !!! x) ∧
        ∃ w'', setFdNonblock fd w' = (Ok tt, w'') ∧ w_flags w'' = w_flags w'.
Proof.
  intros Hopen Hget Hset.
  unfold setFdNonblock, sys_fcntl_getfl, sys_fcntl_setfl.
  run_unfold. simpl. rewrite Hget. rewrite decide_True by done. simpl.
  rewrite Hset. rewrite decide_True by done. simpl.
  eexists. split; [reflexivity|]. simpl. rewrite lookup_total_insert_eq.
  split_and!.
  - apply O_NONBLOCK_set.
  - intros i Hi. by apply O_NONBLOCK_other_bits.
  - intros x Hx. by rewrite lookup_total_insert_ne.
  - rewrite Hget. rewrite decide_True by done. simpl.
    replace (Z.lor (Z.lor (w_flags w !!! fd) O_NONBLOCK) O_NONBLOCK)
      with (Z.lor (w_flags w !!! fd) O_NONBLOCK)
      by (by rewrite <-Z.lor_assoc, Z.lor_diag).
    rewrite Hset. rewrite decide_True by done. simpl.
    eexists. split; [reflexivity|]. simpl. by rewrite insert_insert_eq.
Qed.

(** X7. [setFdNonblock] does not look at the result of fcntl(F_GETFL):
    when that call fails, the -1 it returns is used as the flags, so
    fcntl(F_SETFL) is called with every bit set; if this second call
    succeeds, [setFdNonblock] returns normally and the failure goes
    unreported, its errno left behind. Only a failing fcntl(F_SETFL)
    throws. *)
Theorem setFdNonblock_ignores_getfl_failure (fd : Z) (e : Z) (w : World) :
  fd ∈ w_open w →
  w_fault w (CFcntlGetfl fd) = Some e →
  w_fault w (CFcntlSetfl fd (-1)) = None →
  ∃ w', setFdNonblock fd w = (Ok tt, w') ∧
        w_trace w' = w_trace w ++ [CFcntlGetfl fd; CFcntlSetfl fd (-1)] ∧
        w_errno w' = e.
Proof.
  intros Hopen Hget Hset.
  unfold setFdNonblock, sys_fcntl_getfl, sys_fcntl_setfl.
  run_unfold. simpl. rewrite Hget. simpl.
  change (Z.lor (-1) O_NONBLOCK) with (-1). rewrite Hset.
  rewrite decide_True by done. simpl.
  eexists. split; [reflexivity|]. simpl. by rewrite <-app_assoc.
Qed.

Lemma setFdNonblock_throws fd w e w' :
  setFdNonblock fd w = (Throw e, w') →
  e = ft_exception "fcntl(F_SETFL)" ∧
  ∃ flags w1, sys_fcntl_getfl fd w = (Ok flags, w1) ∧
              sys_fcntl_setfl fd (Z.lor flags O_NONBLOCK) w1 = (Ok (-1), w').
Proof.
  unfold setFdNonblock. intros H. unfold bind at 1 in H.
  destruct (sys_fcntl_getfl_returns fd w) as (flags & w1 & Hget).
  rewrite Hget in H. unfold bind at 1 in H.
  destruct (sys_fcntl_setfl_returns fd (Z.lor flags O_NONBLOCK) w1) as (r & w2 & Hset).
  rewrite Hset in H. unfold throw_if in H.
  destruct (Z.eqb_spec r (-1)) as [->|?]; [|done].
  unfold throw in H. simplify_eq. eauto.
Qed.

(** ** [ServerSocket::listen] *)

(** X8. A call of [listen] that returns has made one listen() call on
    the descriptor of the object, which the system now holds as
    listening, and has set the flag [listening]; the object was not
    listening before, and any further [listen] on it throws "Already
    listening" without making a system call. *)
Theorem listen_once (s : ServerSocket) (w : World) (s' : ServerSocket) (w' : World) :
  ServerSocket_listen s w = (Ok s', w') →
  listening s = false ∧ fd s' = fd s ∧ listening s' = true ∧
  w_trace w' = w_trace w ++ [CListen (fd s)] ∧
  (fd s ∈ w_listening w') ∧
  ∀ w2, ServerSocket_listen s' w2 = (Throw (ft_exception "Already listening"), w2).
Proof.
  unfold ServerSocket_listen. intros H.
  destruct (listening s) eqn:Hl; [done|].
  unfold sys_listen in H. run_unfold. run_cases.
  split_and!; try done. set_solver.
Qed.

(** ** Moving and destroying [ServerSocket] objects *)

Lemma ServerSocket_delete_closes s w :
  0 ≤ fd s →
  ∃ w', ServerSocket_delete s w = (Ok tt, w') ∧
        w_trace w' = w_trace w ++ [CClose (fd s)] ∧
        w_open w' = w_open w ∖ {[fd s]}.
Proof.
  intros Hfd. unfold ServerSocket_delete.
  replace (0 <=? fd s) with true by lia.
  destruct (sys_close (fd s) w) as [r w'] eqn:Hclose.
  destruct (sys_close_ok _ _ _ _ Hclose) as (Ho & Ht & n & ->).
  exists w'. unfold bind, ret. rewrite Hclose. done.
Qed.

(** X9. After a move construction the new object owns the descriptor
    and the moved-from object holds -1: destroying the moved-from object
    makes no system call, destroying the new one closes the descriptor,
    so the two destructors together close it exactly once. *)
Theorem move_construct_then_destroy (this move : nat) (garbage : bool)
    (objs : gmap nat ServerSocket) (s : ServerSocket) :
  objs !! move = Some s → this ≠ move → 0 ≤ fd s →
  ServerSocket_move_new this move garbage objs !! this
    = Some (mkServerSocket (fd s) garbage) ∧
  ServerSocket_move_new this move garbage objs !! move
    = Some (mkServerSocket (-1) (listening s)) ∧
  (∀ w, ServerSocket_destroy move (ServerSocket_move_new this move garbage objs) w
        = (Ok (delete move (ServerSocket_move_new this move garbage objs)), w)) ∧
  (∀ w, ∃ w',
     ServerSocket_destroy this (ServerSocket_move_new this move garbage objs) w
       = (Ok (delete this (ServerSocket_move_new this move garbage objs)), w') ∧
     w_trace w' = w_trace w ++ [CClose (fd s)] ∧
     w_open w' = w_open w ∖ {[fd s]}).
Proof.
  intros Hs Hne Hfd.
  assert (ServerSocket_move_new this move garbage objs
          = <[move := mkServerSocket (-1) (listening s)]>
              (<[this := mkServerSocket (fd s) garbage]> objs)) as ->.
  { unfold ServerSocket_move_new. rewrite Hs. simpl.
    by rewrite lookup_insert_ne, Hs by done. }
  split_and!.
  - by rewrite lookup_insert_ne, lookup_insert_eq by done.
  - by rewrite lookup_insert_eq.
  - intros w. unfold ServerSocket_destroy. by rewrite lookup_insert_eq.
  - intros w. unfold ServerSocket_destroy.
    rewrite lookup_insert_ne, lookup_insert_eq by done.
    destruct (ServerSocket_delete_closes (mkServerSocket (fd s) garbage) w Hfd)
      as (w' & E & Ht & Ho).
    exists w'. unfold bind, ret. rewrite E. done.
Qed.

(** X10. Move assignment between two different objects closes the
    descriptor that the target held, without testing it (so also when it
    is -1), gives the target the descriptor of the source and leaves -1
    in the source. The flag [listening] does not move: the target keeps
    its own, whatever the state of the socket it receives. *)
Theorem move_assign_transfers (this other : nat) (objs : gmap nat ServerSocket)
    (t o : ServerSocket) (w : World) :
  objs !! this = Some t → objs !! other = Some o → this ≠ other →
  ∃ r w',
    sys_close (fd t) w = (r, w') ∧
    ServerSocket_move_assign this other objs w =
      (Ok (<[other := mkServerSocket (-1) (listening o)]>
             (<[this := mkServerSocket (fd o) (listening t)]> objs)), w') ∧
    w_trace w' = w_trace w ++ [CClose (fd t)] ∧
    w_open w' = w_open w ∖ {[fd t]}.
Proof.
  intros Ht Ho Hne. unfold ServerSocket_move_assign. rewrite Ht.
  destruct (sys_close (fd t) w) as [r w'] eqn:Hclose.
  destruct (sys_close_ok _ _ _ _ Hclose) as (Hop & Htr & n & ->).
  eexists _, w'. split; [reflexivity|]. unfold bind. rewrite Hclose, Ho.
  rewrite lookup_insert_ne, Ho by done. done.
Qed.

(** X11. Move assignment of an object to itself closes its descriptor
    and leaves -1 in it: the object loses its socket. *)
Theorem self_move_assign_closes (this : nat) (objs : gmap nat ServerSocket)
    (t : ServerSocket) (w : World) :
  objs !! this = Some t →
  ∃ w',
    ServerSocket_move_assign this this objs w =
      (Ok (<[this := mkServerSocket (-1) (listening t)]> objs), w') ∧
    w_trace w' = w_trace w ++ [CClose (fd t)] ∧
    w_open w' = w_open w ∖ {[fd t]}.
Proof.
  intros Ht. unfold ServerSocket_move_assign. rewrite Ht.
  destruct (sys_close (fd t) w) as [r w'] eqn:Hclose.
  destruct (sys_close_ok _ _ _ _ Hclose) as (Hop & Htr & n & ->).
  exists w'. unfold bind. rewrite Hclose.
  rewrite lookup_insert_eq. simpl. unfold ret. by rewrite insert_insert_eq.
Qed.

(** ** A failing select() *)

Lemma serviced_net fds sock w keep w' :
  serviced fds sock w keep w' → w_net w' = w_net w.
Proof.
  assert (∀ fd len w r w', sys_recv fd len w = (r, w') → w_net w' = w_net w) as Hrecv.
  { intros fd len w0 r w0'. unfold sys_recv. intros H. run_unfold. by run_cases. }
  assert (∀ fd d w r w', sys_send fd d w = (r, w') → w_net w' = w_net w) as Hsend.
  { intros fd d w0 r w0'. unfold sys_send. intros H. run_unfold. by run_cases. }
  assert (∀ fd w r w', sys_shutdown fd w = (r, w') → w_net w' = w_net w) as Hsh.
  { intros fd w0 r w0'. unfold sys_shutdown. intros H. run_unfold. by run_cases. }
  assert (∀ fd w r w', sys_close fd w = (r, w') → w_net w' = w_net w) as Hcl.
  { intros fd w0 r w0'. unfold sys_close. intros H. by run_cases. }
  intros [Hr | n buf w1 r1 w2 r2 w3 Hr H1 _ _ H2 H3
             | n buf w1 r1 w2 Hr H1 _ H2
             | n buf w1 Hr H1 _ _].
  - done.
  - apply Hrecv in H1. apply Hsh in H2. apply Hcl in H3. congruence.
  - apply Hrecv in H1. apply Hsend in H2. congruence.
  - by apply Hrecv in H1.
Qed.

Lemma service_clients_net fds it w cs w' :
  service_clients fds it w = (Ok cs, w') → w_net w' = w_net w.
Proof.
  revert w cs w'. induction it as [|sock it IH]; intros w cs w' H.
  - simpl in H. unfold ret in H. by simplify_eq.
  - apply service_clients_cons in H as (keep & w1 & rest & Hs & Hrest & _).
    apply serviced_net in Hs. apply IH in Hrest. congruence.
Qed.

Lemma sys_accept_nothing_pending fd w :
  w_net w = [] → ∃ w', sys_accept fd w = (Ok (-1), w').
Proof.
  intros Hnet. unfold sys_accept. run_unfold. simpl. rewrite Hnet.
  repeat case_match; eauto.
Qed.

Lemma filter_ready_all (fds : gset Z) (l : list Z) :
  (∀ x, x ∈ l → x ∈ fds) → filter (λ fd, fd ∈ fds) l = l.
Proof.
  induction l as [|x l IH]; intros Hall; [done|].
  rewrite filter_cons_True by (apply Hall; apply list_elem_of_here).
  rewrite IH; [done|]. intros y Hy. by apply Hall, list_elem_of_further.
Qed.

(** X12. The result of select() is not examined. When select() fails
    (for instance interrupted by a signal) it leaves the descriptor set
    as it was passed, so every client and the listener count as ready:
    each client is read, then accept() is called, and with no connection
    request pending that call fails and the turn ends the loop with the
    exception "accept()". *)
Theorem select_failure_is_fatal (lfd : Z) (clients : list Z) (w : World) (e : Z) :
  w_fault w (CSelect (maxSocketId lfd clients + 1) (interest lfd clients)) = Some e →
  w_net w = [] →
  ∃ w' t,
    iteration lfd clients w = (Throw (ft_exception "accept()"), w') ∧
    w_trace w' =
      w_trace w ++
      [CSelect (maxSocketId lfd clients + 1) (interest lfd clients)] ++ t ++
      [CAccept lfd] ∧
    omap read_fd t = clients.
Proof.
  intros Hfault Hnet.
  assert (sys_select (maxSocketId lfd clients + 1) (interest lfd clients) w =
          (Ok (interest lfd clients),
           set_errno e
             (log (CSelect (maxSocketId lfd clients + 1) (interest lfd clients)) w)))
    as Hsel.
  { unfold sys_select, syscall. simpl. by rewrite Hfault. }
  destruct (service_clients_returns (interest lfd clients) clients
              (set_errno e
                 (log (CSelect (maxSocketId lfd clients + 1) (interest lfd clients)) w)))
    as (cs1 & w1 & Hcl).
  destruct (service_clients_trace _ _ _ _ _ Hcl) as (t & T1 & R1 & _).
  pose proof (service_clients_net _ _ _ _ _ Hcl) as N1. simpl in N1.
  destruct (sys_accept_nothing_pending lfd w1) as (w' & Hacc); [congruence|].
  pose proof (sys_accept_makes _ _ _ _ Hacc) as [T2 _].
  exists w', t. split_and!.
  - unfold iteration, bind. rewrite Hsel, Hcl. unfold service_listener, FD_ISSET.
    rewrite bool_decide_eq_true_2 by (apply elem_of_interest; by left).
    unfold bind. by rewrite Hacc.
  - rewrite T2, T1. simpl. by rewrite <-!app_assoc.
  - rewrite R1. apply filter_ready_all. intros x Hx.
    apply elem_of_interest. by right.
Qed.

(** ** What [main] reports *)

Lemma sys_select_stderr nfds fds : preserves same_stderr (sys_select nfds fds).
Proof. unfold sys_select. same_stderr_tac. Qed.
Lemma sys_recv_stderr fd len : preserves same_stderr (sys_recv fd len).
Proof. unfold sys_recv. same_stderr_tac. Qed.
Lemma sys_send_stderr fd data : preserves same_stderr (sys_send fd data).
Proof. unfold sys_send. same_stderr_tac. Qed.
Lemma sys_shutdown_stderr fd : preserves same_stderr (sys_shutdown fd).
Proof. unfold sys_shutdown. same_stderr_tac. Qed.
Lemma sys_accept_stderr fd : preserves same_stderr (sys_accept fd).
Proof. unfold sys_accept. same_stderr_tac. Qed.
Lemma sys_listen_stderr fd : preserves same_stderr (sys_listen fd).
Proof. unfold sys_listen. same_stderr_tac. Qed.
Lemma get_errno_stderr : preserves same_stderr get_errno.
Proof. unfold get_errno. by intros w r w' [= <- <-]. Qed.

#[local] Hint Resolve sys_select_stderr sys_recv_stderr sys_send_stderr
  sys_shutdown_stderr sys_accept_stderr sys_listen_stderr get_errno_stderr : stderr.

Lemma service_clients_stderr fds it : preserves same_stderr (service_clients fds it).
Proof.
  induction it as [|sock it IH]; simpl; [stderr_steps|].
  unfold service_client. stderr_steps.
Qed.

Lemma iteration_stderr lfd cs : preserves same_stderr (iteration lfd cs).
Proof.
  unfold iteration, service_listener, setFdNonblock. stderr_steps.
  apply service_clients_stderr.
Qed.

Lemma event_loop_stderr fuel lfd cs : preserves same_stderr (event_loop fuel lfd cs).
Proof.
  revert cs. induction fuel as [|fuel IH]; intros cs; simpl; [stderr_steps|].
  apply preserves_bind; [exact same_stderr_trans | apply iteration_stderr | exact IH].
Qed.

Lemma Server_start_stderr fuel srv : preserves same_stderr (Server_start fuel srv).
Proof.
  unfold Server_start, ServerSocket_listen. stderr_steps.
  apply event_loop_stderr.
Qed.

Lemma Server_new_stderr port : preserves same_stderr (Server_new port).
Proof.
  unfold Server_new. stderr_steps. apply ServerSocket_new_stderr.
Qed.

Lemma event_loop_throws fuel lfd cs w e w' :
  event_loop fuel lfd cs w = (Throw e, w') →
  e = ft_exception "accept()" ∨ e = ft_exception "fcntl(F_SETFL)".
Proof.
  revert cs w. induction fuel as [|fuel IH]; intros cs w H; simpl in H; [done|].
  unfold bind in H. destruct (iteration lfd cs w) as [[cs1|e1|] w1] eqn:Hit;
    [by eapply IH | | done].
  simplify_eq.
  apply iteration_inv in Hit as [[? _] | (fds & w0 & cs1 & w1' & _ & _ & Hlis)];
    [done|].
  inversion Hlis; auto.
Qed.

Lemma Server_start_throws fuel srv w e w' :
  started srv = false → listening (socket srv) = false →
  Server_start fuel srv w = (Throw e, w') →
  e = ft_exception "listen()" ∨ e = ft_exception "accept()" ∨
  e = ft_exception "fcntl(F_SETFL)".
Proof.
  intros Hs Hl H. unfold Server_start, ServerSocket_listen in H.
  rewrite Hs, Hl in H. unfold bind at 1 in H. unfold bind at 1 in H.
  unfold sys_listen at 1 in H.
  destruct (syscall _ _ _ w) as [[r|e0|] w1] eqn:Hlisten.
  - unfold bind at 1, throw_if in H. destruct (r <? 0).
    + unfold throw in H. simplify_eq. by left.
    + unfold ret at 1 in H. simpl in H. unfold bind in H.
      destruct (event_loop fuel _ [] w1) as [[cs|e1|] w2] eqn:Hloop; [done| |done].
      simplify_eq. right. by eapply event_loop_throws.
  - exfalso. clear -Hlisten. run_unfold. by run_cases.
  - exfalso. clear -Hlisten. run_unfold. by run_cases.
Qed.

Lemma Server_new_inv port w r w' :
  Server_new port w = (r, w') →
  (∃ server, r = Ok server ∧ started server = false ∧
             listening (socket server) = false ∧ 0 ≤ fd (socket server))
  ∨ r = Throw (ft_exception "Invalid port")
  ∨ r = Throw (ft_exception "socket()")
  ∨ r = Throw std_exception.
Proof.
  unfold Server_new, bind. intros H.
  destruct (ServerSocket_new port w) as [r1 w1] eqn:Hnew.
  apply ServerSocket_new_inv in Hnew
    as [(_ & -> & _) | (_ & sock & w2 & _ & [(_ & -> & _) | (Hfd & r2 & w3 & _ & Hc)])].
  - simplify_eq. auto.
  - simplify_eq. auto.
  - destruct Hc as [(_ & -> & _) | (_ & -> & _)]; unfold ret in H; simplify_eq.
    + left. eexists. split; [done|]. by split_and!.
    + auto.
Qed.

(** X13. Whatever the arguments and the system, [main] writes to
    standard error only when it returns, and then one line. With an
    argument count other than two it is "Usage: port" and the status is
    EXIT_SUCCESS; otherwise the status is EXIT_FAILURE and the line is
    one of "Invalid port", "socket()", "listen()", "accept()" and
    "fcntl(F_SETFL)". The texts "setsockopt()", "bind()", "Already
    listening" and "Already started" are never written. *)
Theorem main_reports (fuel : nat) (argv : list string) (w : World)
    (out : Outcome) (w' : World) :
  main fuel argv w = (out, w') →
  match out with
  | Exit status =>
      (length argv ≠ 2%nat ∧ status = EXIT_SUCCESS ∧
       w_stderr w' = w_stderr w ++ ["Usage: port"])
      ∨ (length argv = 2%nat ∧ status = EXIT_FAILURE ∧
         ∃ m, m ∈ failure_messages ∧ w_stderr w' = w_stderr w ++ [m])
  | _ => length argv = 2%nat ∧ w_stderr w' = w_stderr w
  end.
Proof.
  unfold main. intros H.
  destruct (Nat.eqb_spec (length argv) 2) as [Hlen|Hlen]; simpl in H.
  2:{ simplify_eq. left. done. }
  destruct (Server_new (atoi (argv !!! 1%nat)) w) as [r w1] eqn:Hnew.
  pose proof Hnew as Hnew'.
  apply Server_new_stderr in Hnew'.
  apply Server_new_inv in Hnew
    as [(server & -> & Hs & Hl & _) | [-> | [-> | ->]]].
  - destruct (Server_start fuel server w1) as [r2 w2] eqn:Hstart.
    pose proof (Server_start_stderr _ _ _ _ _ Hstart) as Hst.
    unfold same_stderr in *.
    destruct r2 as [?|[m|]|].
    + simplify_eq. split; [done | congruence].
    + destruct (Server_delete server w2) as [r3 w3] eqn:Hdel.
      apply Server_delete_stderr in Hdel. unfold same_stderr in Hdel.
      simpl in H. simplify_eq. right. split_and!; [done | done |].
      exists m. simpl. split; [|congruence].
      destruct (Server_start_throws _ _ _ _ _ Hs Hl Hstart) as [?|[?|?]];
        simplify_eq; unfold failure_messages; set_solver.
    + by destruct (Server_start_throws _ _ _ _ _ Hs Hl Hstart) as [?|[?|?]].
    + simplify_eq. split; [done | congruence].
  - simpl in H. simplify_eq. right. split_and!; [done | done |].
    exists "Invalid port". unfold same_stderr in Hnew'. simpl.
    split; [unfold failure_messages; set_solver | congruence].
  - simpl in H. simplify_eq. right. split_and!; [done | done |].
    exists "socket()". unfold same_stderr in Hnew'. simpl.
    split; [unfold failure_messages; set_solver | congruence].
  - simpl in H. simplify_eq. split; [done|]. by unfold same_stderr in Hnew'.
Qed.


(** [atoi] reads an argument that does not start with a number as 0. *)
Lemma atoi_not_a_number (c : ascii) (s : string) :
  is_space c = false → c ≠ "-"%char → c ≠ "+"%char → is_digit c = false →
  atoi (String c s) = 0.
Proof.
  intros Hsp Hm Hp Hd.
  destruct c as [[] [] [] [] [] [] [] []];
    first [ reflexivity | by vm_compute in Hsp | by vm_compute in Hd | done ].
Qed.

(** [atoi] returns an [int]. *)
Lemma atoi_is_int (s : string) : INT_MIN ≤ atoi s ≤ INT_MAX.
Proof.
  unfold atoi, int_of_long, INT_MIN, INT_MAX.
  pose proof (Z.mod_pos_bound (strtol s + 2 ^ 31) (2 ^ 32)). lia.
Qed.

(** A number within the range of [int] is returned as it is. *)
Lemma atoi_in_range (s : string) :
  INT_MIN ≤ decimal_value s ≤ INT_MAX → atoi s = decimal_value s.
Proof.
  unfold atoi, int_of_long, strtol, INT_MIN, INT_MAX, LONG_MIN, LONG_MAX.
  intros H.
  rewrite Z.min_r, Z.max_r by lia.
  rewrite Z.mod_small; lia.
Qed.

(** A number beyond the range of [int] is not: 4294975376 is
    2^32 + 8080, and its low 32 bits are 8080. *)
Lemma atoi_beyond_int : atoi "4294975376" = 8080 ∧ atoi "99999999999999999999" = -1.
Proof. split; reflexivity. Qed.


(** ** What a constructed [ServerSocket] is *)

Lemma ServerSocket_configure_ok fd port w w' :
  ServerSocket_configure fd port w = (Ok tt, w') →
  ∃ flags,
    w_trace w' = w_trace w ++ [CSetsockopt fd; CFcntlGetfl fd;
                               CFcntlSetfl fd (Z.lor flags O_NONBLOCK);
                               CBind fd port] ∧
    w_flags w' !!! fd = Z.lor flags O_NONBLOCK ∧
    w_open w' = w_open w.
Proof.
  unfold ServerSocket_configure, setFdNonblock, sys_setsockopt, sys_fcntl_getfl,
    sys_fcntl_setfl, sys_bind.
  intros H. run_unfold. run_cases;
    eexists; rewrite <-?app_assoc, ?lookup_total_insert_eq; split_and!; done.
Qed.

(** X16. Whenever the constructor of [ServerSocket] returns, the port
    is in 1..65535 and the object holds a descriptor that was not open
    before, is open now, and has O_NONBLOCK set; the object is not
    listening; and the calls made are, in this order and with no other,
    socket(), setsockopt(), fcntl(F_GETFL), fcntl(F_SETFL) and bind() on
    that descriptor and port. No other descriptor was opened or closed. *)
Theorem constructor_postcondition (port : Z) (w : World) (s : ServerSocket)
    (w' : World) :
  ServerSocket_new port w = (Ok s, w') →
  0 < port ≤ 65535 ∧ listening s = false ∧ 0 ≤ fd s ∧
  (fd s ∉ w_open w) ∧ w_open w' = {[fd s]} ∪ w_open w ∧
  Z.testbit (w_flags w' !!! fd s) 11 = true ∧
  ∃ flags,
    w_trace w' = w_trace w ++ [CSocket; CSetsockopt (fd s); CFcntlGetfl (fd s);
                               CFcntlSetfl (fd s) (Z.lor flags O_NONBLOCK);
                               CBind (fd s) port].
Proof.
  intros H.
  apply ServerSocket_new_inv in H
    as [(_ & ? & _) | (Hport & sock & w1 & Hsock & [(_ & ? & _) | (Hfd & r1 & w2 & Hconf & Hc)])];
    [done | done |].
  destruct Hc as [(-> & ? & ->) | (_ & ? & _)]; [|done]. simplify_eq.
  cbn [fd listening].
  destruct (sys_socket_ok _ _ _ Hsock Hfd) as (Hfresh & Ho1 & Ht1).
  destruct (ServerSocket_configure_ok _ _ _ _ Hconf) as (flags & Ht2 & Hfl & Ho2).
  split_and!; try done; try lia.
  - congruence.
  - rewrite Hfl. apply O_NONBLOCK_set.
  - exists flags. rewrite Ht2, Ht1, <-app_assoc. done.
Qed.

(** ** A failing read *)

Lemma sys_recv_fails fd len w e :
  w_fault w (CRecv fd len) = Some e →
  sys_recv fd len w = (Ok (-1, []), set_errno e (log (CRecv fd len) w)).
Proof. intros Hf. unfold sys_recv, syscall. simpl. by rewrite Hf. Qed.

Lemma service_client_read_error fds sock e w :
  sock ∈ fds → w_fault w (CRecv sock BUFFER_SIZE) = Some e → e ≠ EAGAIN →
  ∃ w', service_client fds sock w = (Ok false, w') ∧
        w_trace w' = w_trace w ++ [CRecv sock BUFFER_SIZE; CShutdown sock; CClose sock] ∧
        (sock ∉ w_open w') ∧
        w_tx w' = w_tx w.
Proof.
  intros Hready Hf He.
  pose proof (sys_recv_fails _ _ _ _ Hf) as Hrecv.
  destruct (service_client_serviced fds sock w) as (keep & w' & E & Hs).
  assert (FD_ISSET sock fds = true) as Hset by by apply bool_decide_eq_true.
  destruct Hs as [Hr | n buf w1 r1 w2 r2 w3 Hr Hrecv' _ _ Hsh Hcl
                     | n buf w1 r1 w2 Hr Hrecv' Hpos Hsend
                     | n buf w1 Hr Hrecv' _ Herr];
    [congruence | | |]; rewrite Hrecv in Hrecv'; simplify_eq; try lia; try done.
  exists w3. split; [done|].
  pose proof (sys_shutdown_makes _ _ _ _ Hsh) as [T2 _].
  pose proof (sys_shutdown_data _ _ _ _ Hsh) as [X2 _].
  pose proof (sys_close_data _ _ _ _ Hcl) as [X3 _].
  destruct (sys_close_ok _ _ _ _ Hcl) as (O3 & T3 & _).
  rewrite T3, T2, O3, X3, X2. simpl. rewrite <-!app_assoc.
  split_and!; [done | set_solver | done].
Qed.

(** X17. A read that fails on a ready client with an errno other than
    EAGAIN ends that connection: the loop calls shutdown() and close()
    on the descriptor right after the recv(), erases it from the live
    set and writes nothing to it. The failure is not raised: the loop
    goes on to its end. *)
Theorem read_error_closes_client (fds : gset Z) (clients : list Z) (sock : Z)
    (e : Z) (w : World) :
  IntSet.wf clients → sock ∈ clients → sock ∈ fds →
  w_fault w (CRecv sock BUFFER_SIZE) = Some e → e ≠ EAGAIN →
  ∃ cs w', service_clients fds clients w = (Ok cs, w') ∧
    (sock ∉ cs) ∧ (sock ∉ w_open w') ∧
    w_tx w' !!! sock = w_tx w !!! sock ∧
    ∃ t1 t2, w_trace w' =
             w_trace w ++ t1 ++
             [CRecv sock BUFFER_SIZE; CShutdown sock; CClose sock] ++ t2.
Proof.
  revert w. induction clients as [|c clients IH]; intros w Hwf Hin Hready Hf He.
  { by apply elem_of_nil in Hin. }
  apply StronglySorted_cons in Hwf as [Hlt Hwf].
  destruct (decide (c = sock)) as [->|Hne].
  - assert (sock ∉ clients) as Hnotin.
    { intros Hin'. rewrite Forall_forall in Hlt. specialize (Hlt _ Hin'). lia. }
    destruct (service_client_read_error fds sock e w) as (w1 & E & Ht & Ho & Hx);
      [done..|].
    destruct (service_clients_returns fds clients w1) as (rest & w2 & E2).
    pose proof (service_clients_other _ _ _ _ _ _ Hnotin E2) as (_ & T2 & _ & O2 & _).
    destruct (service_clients_trace _ _ _ _ _ E2) as (t2 & Tr2 & _).
    exists rest, w2. split_and!.
    + simpl. unfold bind at 1. rewrite E. unfold bind, ret. by rewrite E2.
    + intros Hr. apply Hnotin. eapply sublist_subseteq; [|exact Hr].
      by eapply service_clients_sublist.
    + intros Hopen. by apply Ho, O2.
    + by rewrite T2, Hx.
    + exists [], t2. rewrite Tr2, Ht, <-!app_assoc. done.
  - apply elem_of_cons in Hin as [->|Hin]; [done|].
    destruct (service_client_serviced fds c w) as (keep & w1 & E & Hs).
    pose proof (serviced_other _ sock _ _ _ _ Hne Hs) as (_ & T1 & _ & _ & _ & F1).
    destruct (serviced_trace _ _ _ _ _ Hs) as (t1 & Tr1 & _).
    destruct (IH w1) as (rest & w2 & E2 & Hout & Ho & Htx & t1' & t2' & Htr);
      [done | done | done | by rewrite F1 | done |].
    exists (if keep then c :: rest else rest), w2. split_and!.
    + simpl. unfold bind at 1. rewrite E. unfold bind, ret. by rewrite E2.
    + destruct keep; [|done]. by apply not_elem_of_cons.
    + done.
    + congruence.
    + exists (t1 ++ t1'), t2'. rewrite Htr, Tr1, <-!app_assoc. done.
Qed.

(** ** The further properties at concrete inputs *)

Lemma live_open_3_4 : live_open 3 [4] one_talking_one_pending.
Proof.
  split_and!.
  - repeat constructor.
  - intros x Hx. apply list_elem_of_singleton in Hx as ->. by vm_compute.
  - by vm_compute.
  - intros Hx. by apply list_elem_of_singleton in Hx.
Defined.

Lemma echo_is_own_prefix_witness :
  ∃ d, d `prefix_of` take (Z.to_nat BUFFER_SIZE) (w_rx two_talking !!! 5) ∧
       w_tx (service_clients {[4; 5]} [4; 5] two_talking).2 !!! 5
         = w_tx two_talking !!! 5 ++ d ∧
       (d ≠ [] → 5 ∈ ({[4; 5]} : gset Z) ∧ 5 ∈ [4; 5]).
Proof.
  apply (echo_is_own_prefix {[4; 5]} [4; 5] two_talking [4; 5]
           (service_clients {[4; 5]} [4; 5] two_talking).2 5).
  - exact IntSet_wf_4_5.
  - by vm_compute.
Defined.

Lemma turn_reads_one_chunk_witness :
  w_rx (service_clients {[4; 5]} [4; 5] two_talking_short).2 !!! 5
    = drop (Z.to_nat BUFFER_SIZE) (w_rx two_talking_short !!! 5) ∧
  w_tx (service_clients {[4; 5]} [4; 5] two_talking_short).2 !!! 5
    = w_tx two_talking_short !!! 5 ++
      take (w_room two_talking_short !!! 5)
        (take (Z.to_nat BUFFER_SIZE) (w_rx two_talking_short !!! 5)) ∧
  5 ∈ [4; 5].
Proof.
  apply (turn_reads_one_chunk {[4; 5]} [4; 5] 5 two_talking_short [4; 5]
           (service_clients {[4; 5]} [4; 5] two_talking_short).2).
  - exact IntSet_wf_4_5.
  - repeat constructor.
  - by vm_compute.
  - by vm_compute.
  - by vm_compute.
  - reflexivity.
  - reflexivity.
  - by vm_compute.
Defined.

Lemma erased_are_closed_witness :
  (∀ x, x ∈ [4; 5] → x ∉ [4] →
        x ∉ w_open (service_clients {[4; 5]} [4; 5] one_talking_one_closed).2) ∧
  (∀ x, x ∈ [4] ∨ x ∉ [4; 5] →
        (x ∈ w_open (service_clients {[4; 5]} [4; 5] one_talking_one_closed).2
         ↔ x ∈ w_open one_talking_one_closed)).
Proof.
  apply (erased_are_closed {[4; 5]} [4; 5] one_talking_one_closed [4]
           (service_clients {[4; 5]} [4; 5] one_talking_one_closed).2).
  - exact IntSet_wf_4_5.
  - by vm_compute.
Defined.

Lemma live_set_invariant_witness :
  (3 ∈ w_open (event_loop 2 3 [4] one_talking_one_pending).2) ∧
  (∀ cs', Ok [4; 5] = Ok cs' →
          live_open 3 cs' (event_loop 2 3 [4] one_talking_one_pending).2).
Proof.
  apply (live_set_invariant 2 3 [4] one_talking_one_pending (Ok [4; 5])
           (event_loop 2 3 [4] one_talking_one_pending).2).
  - exact live_open_3_4.
  - by vm_compute.
Defined.

Lemma accept_grows_live_set_witness :
  ∃ sock, (sock ∉ [4]) ∧ (sock ∉ w_open one_talking_one_pending) ∧
          (sock ∈ w_open (service_listener 3 {[3; 4]} [4] one_talking_one_pending).2) ∧
          [4; 5] = IntSet.insert sock [4] ∧
          length [4; 5] = S (length [4]).
Proof.
  apply (accept_grows_live_set 3 {[3; 4]} [4] one_talking_one_pending [4; 5]
           (service_listener 3 {[3; 4]} [4] one_talking_one_pending).2).
  - exact live_open_3_4.
  - by vm_compute.
  - by vm_compute.
Defined.

Lemma setFdNonblock_sets_one_bit_witness :
  ∃ w', setFdNonblock 4 two_talking = (Ok tt, w') ∧
        Z.testbit (w_flags w' !!! 4) 11 = true ∧
        (∀ i, i ≠ 11 → Z.testbit (w_flags w' !!! 4) i
                        = Z.testbit (w_flags two_talking !!! 4) i) ∧
        (∀ x, x ≠ 4 → w_flags w' !!! x = w_flags two_talking !!! x) ∧
        ∃ w'', setFdNonblock 4 w' = (Ok tt, w'') ∧ w_flags w'' = w_flags w'.
Proof.
  apply (setFdNonblock_sets_one_bit 4 two_talking).
  - by vm_compute.
  - reflexivity.
  - reflexivity.
Defined.

Lemma setFdNonblock_ignores_getfl_failure_witness :
  ∃ w', setFdNonblock 3 (failing is_getfl EBADF one_pending) = (Ok tt, w') ∧
        w_trace w' = w_trace (failing is_getfl EBADF one_pending)
                     ++ [CFcntlGetfl 3; CFcntlSetfl 3 (-1)] ∧
        w_errno w' = EBADF.
Proof.
  apply (setFdNonblock_ignores_getfl_failure 3 EBADF (failing is_getfl EBADF one_pending)).
  - by vm_compute.
  - reflexivity.
  - reflexivity.
Defined.

Lemma listen_once_witness :
  listening (mkServerSocket 3 false) = false ∧
  fd (mkServerSocket 3 true) = fd (mkServerSocket 3 false) ∧
  listening (mkServerSocket 3 true) = true ∧
  w_trace (ServerSocket_listen (mkServerSocket 3 false) one_pending).2
    = w_trace one_pending ++ [CListen (fd (mkServerSocket 3 false))] ∧
  (fd (mkServerSocket 3 false)
     ∈ w_listening (ServerSocket_listen (mkServerSocket 3 false) one_pending).2) ∧
  ∀ w2, ServerSocket_listen (mkServerSocket 3 true) w2
        = (Throw (ft_exception "Already listening"), w2).
Proof.
  apply (listen_once (mkServerSocket 3 false) one_pending (mkServerSocket 3 true)
           (ServerSocket_listen (mkServerSocket 3 false) one_pending).2).
  by vm_compute.
Defined.

Lemma move_construct_then_destroy_witness :
  ServerSocket_move_new 2 1 false two_objects !! 2%nat
    = Some (mkServerSocket (fd (mkServerSocket 3 true)) false) ∧
  ServerSocket_move_new 2 1 false two_objects !! 1%nat
    = Some (mkServerSocket (-1) (listening (mkServerSocket 3 true))) ∧
  (∀ w, ServerSocket_destroy 1 (ServerSocket_move_new 2 1 false two_objects) w
        = (Ok (delete 1%nat (ServerSocket_move_new 2 1 false two_objects)), w)) ∧
  (∀ w, ∃ w',
     ServerSocket_destroy 2 (ServerSocket_move_new 2 1 false two_objects) w
       = (Ok (delete 2%nat (ServerSocket_move_new 2 1 false two_objects)), w') ∧
     w_trace w' = w_trace w ++ [CClose (fd (mkServerSocket 3 true))] ∧
     w_open w' = w_open w ∖ {[fd (mkServerSocket 3 true)]}).
Proof.
  apply (move_construct_then_destroy 2 1 false two_objects (mkServerSocket 3 true)).
  - by vm_compute.
  - lia.
  - simpl. lia.
Defined.

Lemma move_assign_transfers_witness :
  ∃ r w',
    sys_close (fd (mkServerSocket 4 false)) two_talking = (r, w') ∧
    ServerSocket_move_assign 0 1 two_objects two_talking =
      (Ok (<[1%nat := mkServerSocket (-1) (listening (mkServerSocket 3 true))]>
             (<[0%nat := mkServerSocket (fd (mkServerSocket 3 true))
                                        (listening (mkServerSocket 4 false))]>
                two_objects)), w') ∧
    w_trace w' = w_trace two_talking ++ [CClose (fd (mkServerSocket 4 false))] ∧
    w_open w' = w_open two_talking ∖ {[fd (mkServerSocket 4 false)]}.
Proof.
  apply (move_assign_transfers 0 1 two_objects (mkServerSocket 4 false)
           (mkServerSocket 3 true) two_talking).
  - by vm_compute.
  - by vm_compute.
  - lia.
Defined.

Lemma self_move_assign_closes_witness :
  ∃ w',
    ServerSocket_move_assign 1 1 two_objects two_talking =
      (Ok (<[1%nat := mkServerSocket (-1) (listening (mkServerSocket 3 true))]>
             two_objects), w') ∧
    w_trace w' = w_trace two_talking ++ [CClose (fd (mkServerSocket 3 true))] ∧
    w_open w' = w_open two_talking ∖ {[fd (mkServerSocket 3 true)]}.
Proof.
  apply (self_move_assign_closes 1 two_objects (mkServerSocket 3 true) two_talking).
  by vm_compute.
Defined.

Lemma select_failure_is_fatal_witness :
  ∃ w' t,
    iteration 3 [4; 5] (failing is_select 4 two_talking)
      = (Throw (ft_exception "accept()"), w') ∧
    w_trace w' =
      w_trace (failing is_select 4 two_talking) ++
      [CSelect (maxSocketId 3 [4; 5] + 1) (interest 3 [4; 5])] ++ t ++
      [CAccept 3] ∧
    omap read_fd t = [4; 5].
Proof.
  apply (select_failure_is_fatal 3 [4; 5] (failing is_select 4 two_talking) 4).
  - reflexivity.
  - reflexivity.
Defined.

Lemma main_reports_witness :
  (length ["server"; "0"] ≠ 2%nat ∧ EXIT_FAILURE = EXIT_SUCCESS ∧
   w_stderr (main 0 ["server"; "0"] boot).2 = w_stderr boot ++ ["Usage: port"])
  ∨ (length ["server"; "0"] = 2%nat ∧ EXIT_FAILURE = EXIT_FAILURE ∧
     ∃ m, m ∈ failure_messages ∧
          w_stderr (main 0 ["server"; "0"] boot).2 = w_stderr boot ++ [m]).
Proof.
  apply (main_reports 0 ["server"; "0"] boot (Exit EXIT_FAILURE)
           (main 0 ["server"; "0"] boot).2).
  by vm_compute.
Defined.



Lemma constructor_postcondition_witness :
  0 < 8080 ≤ 65535 ∧ listening (mkServerSocket 3 false) = false ∧
  0 ≤ fd (mkServerSocket 3 false) ∧
  (fd (mkServerSocket 3 false) ∉ w_open boot) ∧
  w_open (ServerSocket_new 8080 boot).2
    = {[fd (mkServerSocket 3 false)]} ∪ w_open boot ∧
  Z.testbit (w_flags (ServerSocket_new 8080 boot).2 !!! fd (mkServerSocket 3 false)) 11
    = true ∧
  ∃ flags,
    w_trace (ServerSocket_new 8080 boot).2 =
      w_trace boot ++ [CSocket; CSetsockopt (fd (mkServerSocket 3 false));
                       CFcntlGetfl (fd (mkServerSocket 3 false));
                       CFcntlSetfl (fd (mkServerSocket 3 false))
                                   (Z.lor flags O_NONBLOCK);
                       CBind (fd (mkServerSocket 3 false)) 8080].
Proof.
  apply (constructor_postcondition 8080 boot (mkServerSocket 3 false)
           (ServerSocket_new 8080 boot).2).
  by vm_compute.
Defined.

Lemma read_error_closes_client_witness :
  ∃ cs w', service_clients {[4; 5]} [4; 5] one_reset_one_talking = (Ok cs, w') ∧
    (4 ∉ cs) ∧ (4 ∉ w_open w') ∧
    w_tx w' !!! 4 = w_tx one_reset_one_talking !!! 4 ∧
    ∃ t1 t2, w_trace w' =
             w_trace one_reset_one_talking ++ t1 ++
             [CRecv 4 BUFFER_SIZE; CShutdown 4; CClose 4] ++ t2.
Proof.
  apply (read_error_closes_client {[4; 5]} [4; 5] 4 104 one_reset_one_talking).
  - exact IntSet_wf_4_5.
  - repeat constructor.
  - by vm_compute.
  - reflexivity.
  - by vm_compute.
Defined.
